(** * Descriptive statistics of data: [statdesc.py]

    A shallow embedding of [BMC/statdesc.py] (functions [statdesc],
    [summary] and [statprint]) and the properties of its numeric core.

    - Numbers are IEEE binary64 values ([PrimFloat.float]), as numpy's
      [float64]; [np.NaN] is [nan] and comparisons with it are false.
    - numpy and scipy are not part of the module: their functions are the
      fields of a record [Lib], a parameter of every definition.
    - The module is modelled as it runs when [matplotlib] cannot be imported
      ([plt = None], the [except ImportError] branch): both plotting guards
      ([show > 1 and plt], [show and plt]) are then false whatever [show],
      which is therefore not a parameter of [statdesc] here.
    - Python objects that outlive a call are explicit: the array object the
      caller passed, the list object bound to [labels], the list created once
      for the default value of [labels], and the text printed so far. *)

From Stdlib Require Import ZArith Uint63 Floats Reals Lra.
From stdpp Require Import list strings pretty.
From Equations Require Import Equations.

Set Default Proof Using "Type".
#[local] Set Warnings "-inexact-float".

(** ** Floating point *)

Module Np.

(** [np.NaN] *)
Definition NaN : float := nan.

(** [np.isnan(v)] *)
Definition isnan (v : float) : bool := is_nan v.

(** Conversion of a Python [int] (an array size) to [float64]. *)
Definition of_int (n : nat) : float := of_uint63 (Uint63.of_nat n).

(** [np.sqrt] *)
Definition sqrt (v : float) : float := PrimFloat.sqrt v.

(** One cell of [np.zeros(shape) * np.NaN]. *)
Definition zeros_times_NaN : float := (0 * NaN)%float.

(** [v > c] on float64: false as soon as one side is NaN. *)
Definition gt (v c : float) : bool := (c <? v)%float.

End Np.

(** ** Arrays

    An [ndarray] of rank 1 is its buffer; one of rank 2 is its number of
    columns and its rows, of [ncols] cells each
    ([shape = (length rows, ncols)]). *)

Inductive ndarray : Type :=
| Rank1 (buf : list float)
| Rank2 (ncols : nat) (rows : list (list float)).

(** What a caller may pass as [data]: an existing float64 array object, or a
    (nested) Python sequence of numbers. *)
Inductive array_like : Type :=
| Nd (a : ndarray)
| Seq1 (xs : list float)
| Seq2 (rows : list (list float)).

Inductive exn : Type := ValueError | IndexError.

(** [np.asarray(data)]: an ndarray is returned as it is (the same object, no
    copy); a sequence is converted to a new array, and a ragged one cannot
    be. An empty sequence has shape [(0,)]. *)
Definition asarray (data : array_like) : exn + ndarray :=
  match data with
  | Nd a => inr a
  | Seq1 xs => inr (Rank1 xs)
  | Seq2 [] => inr (Rank1 [])
  | Seq2 (r :: rs) =>
      if forallb (λ r', length r' =? length r) rs
      then inr (Rank2 (length r) (r :: rs))
      else inl ValueError
  end.

(** The table [data] that [statdesc] works on after
    [data.reshape(data.shape[0], 1)] of a rank-1 array. *)
Record table : Type := Table { shape1 : nat; rows : list (list float) }.

Definition shape0 (t : table) : nat := length (rows t).

Definition reshape (a : ndarray) : table :=
  match a with
  | Rank1 buf => Table 1 (map (λ v, [v]) buf)
  | Rank2 c rs => Table c rs
  end.

(** [reshape] returns a view: the table shares its memory with the array it
    was made from, so the array is read back from the table. *)
Definition view_base (a : ndarray) (t : table) : ndarray :=
  match a with
  | Rank1 _ => Rank1 (concat (rows t))
  | Rank2 c _ => Rank2 c (rows t)
  end.

(** The object the caller passed, once the local table has become [t]:
    an ndarray is aliased by [data], a sequence was copied. *)
Definition caller_object (data : array_like) (t : table) : array_like :=
  match data with
  | Nd a => Nd (view_base a t)
  | Seq1 _ | Seq2 _ => data
  end.

(** The [missing] argument: a string (['NaN'] by default) or a number. *)
Inductive missing_arg : Type :=
| MissingStr (s : string)
| MissingNum (m : float).

(** [isinstance(missing, (int, float)) and ~np.isnan(missing)] *)
Definition numeric_sentinel (missing : missing_arg) : option float :=
  match missing with
  | MissingStr _ => None
  | MissingNum m => if Np.isnan m then None else Some m
  end.

(** [data[data == missing] = np.NaN], in place. *)
Definition mask_cell (m v : float) : float :=
  if (v =? m)%float then Np.NaN else v.

Definition mask_missing (m : float) (t : table) : table :=
  Table (shape1 t) (map (map (mask_cell m)) (rows t)).

(** [data[:, i]] *)
Definition column (t : table) (i : nat) : list float :=
  map (λ r, nth i r Np.NaN) (rows t).

(** [data[~np.isnan(data[:, i]), i]] *)
Definition clean_column (t : table) (i : nat) : list float :=
  filter (λ v, Np.isnan v = false) (column t i).

(** ** numpy and scipy *)

Inductive center : Type := median | mean | trimmed.

Record Lib : Type := {
  np_mean : list float → float;
  np_std : list float → nat → float;              (* np.std(x, ddof=k) *)
  np_min : list float → float;                    (* x.min() *)
  np_max : list float → float;                    (* x.max() *)
  np_median : list float → float;
  np_percentile : list float → nat → float;
  stats_t_pdf : float → nat → float;              (* stats.t._pdf(x, df) *)
  stats_shapiro : list float → float * float;
  stats_bartlett : list (list float) → float * float;
  stats_levene : list (list float) → center → float * float
}.

(** ** [summary] *)

Record profile : Type := Profile {
  p_m_sd : float * float;
  p_ci : float * float;
  p_min_max : float * float;
  p_quartiles : float * float * float;
  p_normality : float * float
}.

Definition undefined2 : float * float := (Np.zeros_times_NaN, Np.zeros_times_NaN).
Definition undefined3 : float * float * float :=
  (Np.zeros_times_NaN, Np.zeros_times_NaN, Np.zeros_times_NaN).

Definition summary (L : Lib) (x : list float) : profile :=
  (* mean and standard deviation (unbiased) *)
  let m_sd := (np_mean L x, np_std L x 1) in
  (* 95% confidence interval (confidence limits for the mean) *)
  let ci :=
    if 1 <? length x then
      let h := (stats_t_pdf L 0.975 (length x - 1) * m_sd.2
                / Np.sqrt (Np.of_int (length x)))%float in
      ((h * (-1) + m_sd.1)%float, (h * 1 + m_sd.1)%float)
    else undefined2 in
  (* minimum and maximum *)
  let min_max := (np_min L x, np_max L x) in
  (* median, and 25th and 75th percentiles *)
  let quartiles := (np_median L x, np_percentile L x 25, np_percentile L x 75) in
  (* test for normality *)
  let normality := if 2 <? length x then stats_shapiro L x else undefined2 in
  Profile m_sd ci min_max quartiles normality.

(** ** Printed output and exceptions *)

(** A printed line: literal text, or a [%]-format applied to its string and
    float arguments (the rendering of [%15f] is left to Python). *)
Inductive line : Type :=
| Text (s : string)
| Fmt (fmt : string) (strs : list string) (nums : list float).

(** Statements that print and may raise: the text printed so far is threaded
    through, and is kept when an exception is raised. *)
Definition io (A : Type) : Type := list line → list line * (exn + A).

#[global] Instance io_ret : MRet io := λ A a out, (out, inr a).
#[global] Instance io_bind : MBind io := λ A B f m out,
  match m out with
  | (out', inr a) => f a out'
  | (out', inl e) => (out', inl e)
  end.

Definition print (l : line) : io unit := λ out, (out ++ [l], inr tt).
Definition raise {A} (e : exn) : io A := λ out, (out, inl e).

(** A statement that completes, or raises [e], whatever was printed before. *)
Definition succeeds (m : io unit) : Prop := ∀ out, ∃ out', m out = (out', inr tt).
Definition raises (e : exn) (m : io unit) : Prop :=
  ∀ out, ∃ out', m out = (out', inl e).

(** [l[i]] on a list or on the rows of an array *)
Definition item {A} (l : list A) (i : nat) : io A :=
  match l !! i with
  | Some a => mret a
  | None => raise IndexError
  end.

(** [for i in range(n): body] *)
Fixpoint for_in (l : list nat) (body : nat → io unit) : io unit :=
  match l with
  | [] => mret tt
  | i :: l' => body i ;; for_in l' body
  end.

Definition for_range (n : nat) (body : nat → io unit) : io unit :=
  for_in (seq 0 n) body.

(** [str(n)] and ['%d' % n] *)
Definition str (n : nat) : string := pretty n.

Definition rule : line :=
  Text "-----------------------------------------------------------".

(** ** [statprint] *)

(** [for i in range(ncol): print(fmt % (labels[i], arr[i, 0], ...))] *)
Definition print_row {A} (f : string → A → line) (labels : list string)
    (arr : list A) (i : nat) : io unit :=
  lab ← item labels i;
  r ← item arr i;
  print (f lab r).

Definition print_table {A} (f : string → A → line) (labels : list string)
    (arr : list A) (ncol : nat) : io unit :=
  for_range ncol (print_row f labels arr).

Definition print_pairs : list string → list (float * float) → nat → io unit :=
  print_table (λ lab r, Fmt "%-10s %15f %15f" [lab] [r.1; r.2]).

Definition print_triples :
    list string → list (float * float * float) → nat → io unit :=
  print_table (λ lab r, Fmt "%-10s %15f %15f %15f" [lab] [r.1.1; r.1.2; r.2]).

(** [np.all(normality[:, 1] > level)] *)
Definition all_normal (normality : list (float * float)) (level : float) : bool :=
  forallb (λ r, Np.gt r.2 level) normality.

Definition statprint (m_sd ci min_max : list (float * float))
    (quartiles : list (float * float * float))
    (normality eq_var : list (float * float)) (labels : list string)
    (alpha : float) (nrow ncol nmiss nx : nat) : io unit :=
  print rule ;;
  (* the two format operators below sit inside the string literals *)
  print (Text "Descriptive statistics for data (%d %s, %d %s)'           % (nrow, str_row, ncol, str_col) ") ;;
  print (Text "%d missing values' % nmiss") ;;
  print rule ;;
  print (Fmt "%-10s %15s %15s" ["Variable"; "Mean"; "STD"] []) ;;
  print rule ;;
  print_pairs labels m_sd ncol ;;
  print rule ;;
  print (Fmt "%s" ["95% confidence interval with unknown population STD"] []) ;;
  print (Fmt "%-10s %15s %15s" ["Variable"; "Lower"; "Upper"] []) ;;
  print rule ;;
  print_pairs labels ci ncol ;;
  print rule ;;
  print (Fmt "%-10s %15s %15s" ["Variable"; "Minimum"; "Maximum"] []) ;;
  print rule ;;
  print_pairs labels min_max ncol ;;
  print rule ;;
  print (Fmt "%-10s %15s %15s %15s"
           ["Variable"; "Median"; "25th percent."; "75th percent."] []) ;;
  print rule ;;
  print_triples labels quartiles ncol ;;
  print rule ;;
  print (Fmt "%s" ["Shapiro-Wilk's test for normality"] []) ;;
  print (Fmt "%-10s %15s %15s" ["Variable"; "W statistic"; "p value"] []) ;;
  print rule ;;
  print_pairs labels normality ncol ;;
  print rule ;;
  if 1 <? nx then
    (if all_normal normality alpha
     then print (Text "Barlett's test for equality of variances")
     else print (Text "Levene's test for equality of variances")) ;;
    print (Fmt "%26s %15s" ["t statistic"; "p value"] []) ;;
    print rule ;;
    (r ← item eq_var 0;
     print (Fmt "%26f %15f" [] [r.1; r.2])) ;;
    print rule
  else mret tt.

(** ** [statdesc] *)

(** The calls made to scipy's tests for equality of variances. *)
Inductive test_call : Type :=
| Bartlett (samples : list (list float))
| Levene (samples : list (list float)) (c : center).

(** The local variables of [statdesc], with the text printed so far. *)
Record locals : Type := Locals {
  m_sd : list (float * float);
  ci : list (float * float);
  min_max : list (float * float);
  quartiles : list (float * float * float);
  normality : list (float * float);
  eq_var : list (float * float);
  x : list (list float);
  nmiss : nat;
  min_len : nat;
  labels : list string;
  calls : list test_call;
  out : list line
}.

(** The state at the first line of the loop over the columns. *)
Definition init_locals (ncol : nat) (labels0 : list string)
    (out0 : list line) : locals :=
  {| m_sd := replicate ncol undefined2;
     ci := replicate ncol undefined2;
     min_max := replicate ncol undefined2;
     quartiles := replicate ncol undefined3;
     normality := replicate ncol undefined2;
     eq_var := [undefined2];
     x := [];
     nmiss := 0;
     min_len := 0;
     labels := labels0;
     calls := [];
     out := out0 |}.

(** A non-empty string is true. *)
Definition truthy (s : string) : bool :=
  match s with EmptyString => false | String _ _ => true end.

(** [len(labels) > i and labels[i]] *)
Definition has_label (labels0 : list string) (i : nat) : bool :=
  (i <? length labels0) && from_option truthy false (labels0 !! i).

(** The [# handle labels] statement. *)
Definition handle_labels (labels0 : list string) (i : nat) : list string :=
  if has_label labels0 i then labels0
  else if i <? length labels0 then <[i := str (i + 1)]> labels0
  else labels0 ++ [str (i + 1)].

Definition skip_notice (i : nat) : line :=
  Text ("Skipping column " +:+ str (i + 1) +:+ ", only missing data").

(** The body of [for i in range(data.shape[1])]. Each round appends one
    array to [x], so [x[i]] is the array just appended, [xi]. *)
Definition column_body (L : Lib) (t : table) (st : locals) (i : nat) : locals :=
  let xi := clean_column t i in
  let x' := x st ++ [xi] in
  let nmiss' := nmiss st + (shape0 t - length xi) in
  if length xi =? 0 then
    (* print, continue *)
    {| m_sd := m_sd st; ci := ci st; min_max := min_max st;
       quartiles := quartiles st; normality := normality st;
       eq_var := eq_var st; x := x'; nmiss := nmiss';
       min_len := min_len st; labels := labels st; calls := calls st;
       out := out st ++ [skip_notice i] |}
  else
    let p := summary L xi in
    {| m_sd := <[i := p_m_sd p]> (m_sd st);
       ci := <[i := p_ci p]> (ci st);
       min_max := <[i := p_min_max p]> (min_max st);
       quartiles := <[i := p_quartiles p]> (quartiles st);
       normality := <[i := p_normality p]> (normality st);
       eq_var := eq_var st; x := x'; nmiss := nmiss';
       min_len := if 2 <? length xi then min_len st + 1 else min_len st;
       labels := handle_labels (labels st) i;
       calls := calls st;
       out := out st |}.

Definition column_loop (L : Lib) (t : table) (st : locals) : locals :=
  foldl (column_body L t) st (seq 0 (shape1 t)).

(** A value together with the equation that it is the value of [a]. *)
Definition inspect {A} (a : A) : {b | a = b} := exist _ a eq_refl.

(** [i = 0; while i < len(x): if x[i].size == 0: x.pop(i) else: i += 1] *)
Equations? remove_empty (i : nat) (xs : list (list float)) : list (list float)
  by wf (length xs - i) lt :=
  remove_empty i xs with inspect (xs !! i) => {
    | exist _ (Some xi) _ with inspect (length xi =? 0) => {
        | exist _ true _ := remove_empty i (delete i xs);
        | exist _ false _ := remove_empty (S i) xs };
    | exist _ None _ := xs }.
Proof.
  all: match goal with H : _ !! _ = Some _ |- _ => apply lookup_lt_Some in H end.
  - rewrite length_delete; [lia | eauto using lookup_lt_is_Some_2].
  - lia.
Qed.

(** [# test for equality of variances] *)
Definition variance_test (L : Lib) (st : locals) : locals :=
  if (1 <? length (x st)) && (1 <? min_len st) then
    let call :=
      if all_normal (normality st) 0.05
      then (stats_bartlett L (x st), Bartlett (x st))
      else (stats_levene L (x st) median, Levene (x st) median) in
    {| m_sd := m_sd st; ci := ci st; min_max := min_max st;
       quartiles := quartiles st; normality := normality st;
       eq_var := <[0 := call.1]> (eq_var st);
       x := x st; nmiss := nmiss st; min_len := min_len st;
       labels := labels st; calls := calls st ++ [call.2]; out := out st |}
  else st.

(** [x] after the loop that removes the empty arrays. *)
Definition drop_empty (st : locals) : locals :=
  {| m_sd := m_sd st; ci := ci st; min_max := min_max st;
     quartiles := quartiles st; normality := normality st;
     eq_var := eq_var st; x := remove_empty 0 (x st); nmiss := nmiss st;
     min_len := min_len st; labels := labels st; calls := calls st;
     out := out st |}.

(** The objects that outlive a call: the list built once, when [def statdesc]
    is executed, for the default value of [labels]; and the text printed. *)
Record heap : Type := Heap { default_labels : list string; stdout : list line }.

(** The list object bound to the parameter [labels]: the caller's, or the
    default one when the argument is omitted. *)
Definition bound_labels (h : heap) (labels0 : option (list string)) : list string :=
  default (default_labels h) labels0.

(** [data] after conversion, reshaping and the replacement of [missing]. *)
Definition normalize (a : ndarray) (missing : missing_arg) : table :=
  match numeric_sentinel missing with
  | Some m => mask_missing m (reshape a)
  | None => reshape a
  end.

(** The state of [statdesc] when it calls [statprint]. *)
Definition statdesc_core (L : Lib) (t : table) (labels0 : list string)
    (out0 : list line) : locals :=
  variance_test L (drop_empty (column_loop L t (init_locals (shape1 t) labels0 out0))).

(** The returned tuple. *)
Record results : Type := Results {
  ret_m_sd : list (float * float);
  ret_ci : list (float * float);
  ret_min_max : list (float * float);
  ret_quartiles : list (float * float * float);
  ret_normality : list (float * float);
  ret_eq_var : list (float * float)
}.

(** What a call leaves behind: the tuple it returns or the exception it
    raises, the calls it made to the tests of equal variances, the caller's
    [data] object and the list bound to [labels] as they are after the call,
    and the heap. *)
Record run : Type := Run {
  outcome : exn + results;
  tests_run : list test_call;
  data_after : array_like;
  labels_after : list string;
  heap_after : heap
}.

Definition statdesc (L : Lib) (h : heap) (data : array_like)
    (missing : missing_arg) (labels0 : option (list string))
    (alpha : float) : run :=
  match asarray data with
  | inl e => Run (inl e) [] data (bound_labels h labels0) h
  | inr a =>
      let t := normalize a missing in
      let st := statdesc_core L t (bound_labels h labels0) (stdout h) in
      let printed :=
        statprint (m_sd st) (ci st) (min_max st) (quartiles st) (normality st)
          (eq_var st) (labels st) alpha (shape0 t) (shape1 t) (nmiss st)
          (length (x st)) (out st) in
      Run (match printed.2 with
           | inl e => inl e
           | inr _ => inr (Results (m_sd st) (ci st) (min_max st) (quartiles st)
                             (normality st) (eq_var st))
           end)
          (calls st)
          (caller_object data t)
          (labels st)
          (Heap (match labels0 with
                 | None => labels st
                 | Some _ => default_labels h
                 end)
                printed.1)
  end.

(** [statdesc(data)], the call with every optional argument omitted:
    [missing='NaN'], the default list for [labels], [alpha=.05]. *)
Definition statdesc_default (L : Lib) (h : heap) (data : array_like) : run :=
  statdesc L h data (MissingStr "NaN") None 0.05%float.

(** ** A reference library

    Textbook float64 versions of the numpy functions and of the density of
    Student's t, to run the model on concrete data. The three scipy tests
    are arguments: a run fixes what they answer. *)

Module Ref.

#[local] Open Scope float_scope.

Definition sum (xs : list float) : float :=
  match xs with
  | [] => 0
  | v :: vs => foldl add v vs
  end.

Definition mean (xs : list float) : float := sum xs / Np.of_int (length xs).

(** [sqrt(sum((x - mean)^2) / max(n - ddof, 0))] *)
Definition std (xs : list float) (ddof : nat) : float :=
  let m := mean xs in
  Np.sqrt (sum (map (λ v, (v - m) * (v - m)) xs)
           / Np.of_int (length xs - ddof)).

Definition min (xs : list float) : float :=
  match xs with
  | [] => Np.NaN
  | v :: vs => foldl (λ a b, if b <? a then b else a) v vs
  end.

Definition max (xs : list float) : float :=
  match xs with
  | [] => Np.NaN
  | v :: vs => foldl (λ a b, if a <? b then b else a) v vs
  end.

Fixpoint insert_sorted (v : float) (xs : list float) : list float :=
  match xs with
  | [] => [v]
  | w :: ws => if v <=? w then v :: w :: ws else w :: insert_sorted v ws
  end.

Definition sort (xs : list float) : list float := foldr insert_sorted [] xs.

(** Linear interpolation between the order statistics around
    [q / 100 * (n - 1)]. *)
Definition percentile (xs : list float) (q : nat) : float :=
  let s := sort xs in
  let pos := (q * (length xs - 1))%nat in
  let lo := nth (pos / 100) s Np.NaN in
  let hi := nth (S (pos / 100)) s lo in
  lo + Np.of_int (pos mod 100) / 100 * (hi - lo).

Definition median (xs : list float) : float := percentile xs 50.

Definition pi : float := 3.141592653589793.

(** [Gamma((df + 1) / 2) / Gamma(df / 2)], by [Gamma(z + 1) = z Gamma(z)]
    from [df = 1] and [df = 2]. *)
Fixpoint gamma_ratio (df : nat) : float :=
  match df with
  | 0%nat => Np.NaN
  | 1%nat => 1 / Np.sqrt pi
  | 2%nat => Np.sqrt pi / 2
  | S (S df' as df1) => Np.of_int df1 / Np.of_int df' * gamma_ratio df'
  end.

Fixpoint pow (b : float) (k : nat) : float :=
  match k with
  | O => 1
  | S k' => b * pow b k'
  end.

(** [b ** (k / 2)] *)
Definition pow_half (b : float) (k : nat) : float :=
  if Nat.even k then pow b (k / 2) else pow b (k / 2) * Np.sqrt b.

(** The density of Student's t with [df] degrees of freedom at [v]:
    [Gamma((df+1)/2) / (sqrt(df pi) Gamma(df/2)) (1 + v^2/df)^(-(df+1)/2)]. *)
Definition t_pdf (v : float) (df : nat) : float :=
  gamma_ratio df
  / (Np.sqrt (Np.of_int df * pi) * pow_half (1 + v * v / Np.of_int df) (df + 1)).

Definition lib (shapiro : list float → float * float)
    (bartlett : list (list float) → float * float)
    (levene : list (list float) → center → float * float) : Lib :=
  {| np_mean := mean; np_std := std; np_min := min; np_max := max;
     np_median := median; np_percentile := percentile;
     stats_t_pdf := t_pdf; stats_shapiro := shapiro;
     stats_bartlett := bartlett; stats_levene := levene |}.

End Ref.

(** ** Student's t with one degree of freedom

    For a sample of two values [summary] asks for Student's t with one
    degree of freedom, the Cauchy distribution: over the reals, its density
    and its cumulative distribution function. *)

Module StudentT1.

Definition pdf (v : R) : R := (/ (PI * (1 + v * v)))%R.

Definition cdf (v : R) : R := (/ 2 + atan v / PI)%R.

End StudentT1.

(** A freshly started interpreter: the default list is still empty and
    nothing has been printed. *)
Definition fresh : heap := Heap [] [].

(** The reference library with scipy's tests fixed: Shapiro-Wilk answers
    [(W, p)] on every sample. *)
Definition lib_with (W p : float) : Lib :=
  Ref.lib (λ _, (W, p)) (λ _, (1.5, 0.2)%float) (λ _ _, (2.5, 0.1)%float).

(** Three observations of four variables: the first was never measured, the
    last only once. *)
Definition sample_data : array_like :=
  Seq2 [[nan; 1; 4; 5]; [nan; 2; 4; nan]; [nan; 3; 7; nan]]%float.

Definition sample_array : ndarray :=
  Rank2 4 [[nan; 1; 4; 5]; [nan; 2; 4; nan]; [nan; 3; 7; nan]]%float.

Definition sample_labels : list string := ["a"; ""; "c"; "d"].

(** ** Notions used by the statements *)

(** The size of the clean column [i]. *)
Definition clean_len (t : table) (i : nat) : nat := length (clean_column t i).

(** The clean columns that are not empty, in column order. *)
Definition samples (t : table) : list (list float) :=
  filter (λ xi, length xi ≠ 0) (map (clean_column t) (seq 0 (shape1 t))).

(** The number of columns of [t] that pass the test [P]. *)
Definition count_columns (t : table) (P : nat → Prop)
    `{!∀ i, Decision (P i)} : nat :=
  length (filter P (seq 0 (shape1 t))).

(** At least two clean columns are not empty, and at least two hold more
    than two values. *)
Definition test_guard (t : table) : Prop :=
  1 < count_columns t (λ i, clean_len t i ≠ 0) ∧
  1 < count_columns t (λ i, 2 < clean_len t i).

#[global] Instance test_guard_dec t : Decision (test_guard t).
Proof. unfold test_guard. apply _. Defined.

(** The local state at the top of round [i] of the loop over the columns. *)
Definition locals_at (L : Lib) (t : table) (st : locals) (i : nat) : locals :=
  foldl (column_body L t) st (seq 0 i).

(** The five rows of column [j] in the result arrays. *)
Definition row (st : locals) (j : nat) :=
  (m_sd st !! j, ci st !! j, min_max st !! j, quartiles st !! j, normality st !! j).

Definition some_row (p : profile) :=
  (Some (p_m_sd p), Some (p_ci p), Some (p_min_max p), Some (p_quartiles p),
   Some (p_normality p)).

Definition undefined_profile : profile :=
  Profile undefined2 undefined2 undefined2 undefined3 undefined2.

(** The profile that column [j] ends with. *)
Definition column_profile (L : Lib) (t : table) (j : nat) : profile :=
  if decide (clean_len t j = 0) then undefined_profile
  else summary L (clean_column t j).

(** The Shapiro-Wilk p-value of column [j], as [normality[j, 1]] holds it. *)
Definition p_value (L : Lib) (t : table) (j : nat) : float :=
  (p_normality (column_profile L t j)).2.

(** The result arrays have [c] rows each. *)
Definition shape_ok (c : nat) (st : locals) : Prop :=
  length (m_sd st) = c ∧ length (ci st) = c ∧ length (min_max st) = c ∧
  length (quartiles st) = c ∧ length (normality st) = c.

(** The label that column [i] has once it has been handled: its own when it
    is not empty, [str(i+1)] otherwise. *)
Definition label_of (labels0 : list string) (i : nat) : string :=
  match labels0 !! i with
  | Some s => if truthy s then s else str (i + 1)
  | None => str (i + 1)
  end.

(** A dataset whose first variable was never measured. *)
Definition first_column_missing : array_like :=
  Seq2 [[nan; 1]; [nan; 2]; [nan; 3]]%float.

(** A dataset without missing values. *)
Definition two_full_columns : array_like :=
  Seq2 [[1; 4]; [2; 4]; [3; 7]]%float.

(** An array in which [-999] stands for a missing value. *)
Definition coded_array : ndarray := Rank2 2 [[-999; 1]; [4; 2]; [5; 3]]%float.

(** [data[data == m] = np.NaN] on the caller's array. *)
Definition mask_array (m : float) (a : ndarray) : ndarray :=
  match a with
  | Rank1 buf => Rank1 (map (mask_cell m) buf)
  | Rank2 c rs => Rank2 c (map (map (mask_cell m)) rs)
  end.

(** ** Notions used by the further properties *)

(** A statement that completes and prints exactly the lines [ls]. *)
Definition emits (m : io unit) (ls : list line) : Prop :=
  ∀ out, m out = (out ++ ls, inr tt).

(** A statement that only adds to what was printed, whether it completes
    or raises. *)
Definition appends {A} (m : io A) : Prop :=
  ∀ out, ∃ added, (m out).1 = out ++ added.

(** The rows of the tables of [statprint]. *)
Definition pair_row (lab : string) (r : float * float) : line :=
  Fmt "%-10s %15f %15f" [lab] [r.1; r.2].

Definition triple_row (lab : string) (r : float * float * float) : line :=
  Fmt "%-10s %15f %15f %15f" [lab] [r.1.1; r.1.2; r.2].

(** The lines of a table of [ncol] rows. *)
Definition table_lines {A} (f : string → A → line) (labels0 : list string)
    (arr : list A) (ncol : nat) : list line :=
  zip_with f (take ncol labels0) (take ncol arr).

(** The heading of the last table: the test named is Bartlett's (spelled
    as the module spells it) when every p-value exceeds [alpha]. *)
Definition test_heading (normality0 : list (float * float)) (alpha : float) : line :=
  if all_normal normality0 alpha
  then Text "Barlett's test for equality of variances"
  else Text "Levene's test for equality of variances".

(** The lines of the last table, printed when [nx > 1]. *)
Definition test_lines (normality0 eq_var0 : list (float * float))
    (alpha : float) (nx : nat) : list line :=
  if 1 <? nx then
    [test_heading normality0 alpha;
     Fmt "%26s %15s" ["t statistic"; "p value"] [];
     rule]
    ++ from_option (λ r, [Fmt "%26f %15f" [] [r.1; r.2]]) [] (eq_var0 !! 0)
    ++ [rule]
  else [].

(** The whole report of a [statprint] that completes. *)
Definition report_lines (m_sd0 ci0 min_max0 : list (float * float))
    (quartiles0 : list (float * float * float))
    (normality0 eq_var0 : list (float * float)) (labels0 : list string)
    (alpha : float) (ncol nx : nat) : list line :=
  [rule;
   Text "Descriptive statistics for data (%d %s, %d %s)'           % (nrow, str_row, ncol, str_col) ";
   Text "%d missing values' % nmiss";
   rule;
   Fmt "%-10s %15s %15s" ["Variable"; "Mean"; "STD"] [];
   rule]
  ++ table_lines pair_row labels0 m_sd0 ncol
  ++ [rule;
      Fmt "%s" ["95% confidence interval with unknown population STD"] [];
      Fmt "%-10s %15s %15s" ["Variable"; "Lower"; "Upper"] [];
      rule]
  ++ table_lines pair_row labels0 ci0 ncol
  ++ [rule;
      Fmt "%-10s %15s %15s" ["Variable"; "Minimum"; "Maximum"] [];
      rule]
  ++ table_lines pair_row labels0 min_max0 ncol
  ++ [rule;
      Fmt "%-10s %15s %15s %15s"
        ["Variable"; "Median"; "25th percent."; "75th percent."] [];
      rule]
  ++ table_lines triple_row labels0 quartiles0 ncol
  ++ [rule;
      Fmt "%s" ["Shapiro-Wilk's test for normality"] [];
      Fmt "%-10s %15s %15s" ["Variable"; "W statistic"; "p value"] [];
      rule]
  ++ table_lines pair_row labels0 normality0 ncol
  ++ [rule]
  ++ test_lines normality0 eq_var0 alpha nx.

(** What [statprint] needs to complete: a label and a row of each array
    for every column, and a row of [eq_var] when [nx > 1]. *)
Definition printable (m_sd0 ci0 min_max0 : list (float * float))
    (quartiles0 : list (float * float * float))
    (normality0 eq_var0 : list (float * float)) (labels0 : list string)
    (ncol nx : nat) : Prop :=
  ncol ≤ length labels0 ∧ ncol ≤ length m_sd0 ∧ ncol ≤ length ci0 ∧
  ncol ≤ length min_max0 ∧ ncol ≤ length quartiles0 ∧
  ncol ≤ length normality0 ∧ (1 < nx → 0 < length eq_var0).

#[global] Instance printable_dec m_sd0 ci0 min_max0 quartiles0 normality0
    eq_var0 labels0 ncol nx :
  Decision (printable m_sd0 ci0 min_max0 quartiles0 normality0 eq_var0
              labels0 ncol nx).
Proof. unfold printable. apply _. Defined.

(** A cell that is kept when [m] stands for a missing value. *)
Definition kept (m v : float) : Prop :=
  Np.isnan v = false ∧ (v =? m)%float = false.

#[global] Instance kept_dec m v : Decision (kept m v).
Proof. unfold kept. apply _. Defined.

(** Every row of the table has one cell per column. *)
Definition rectangular (t : table) : Prop :=
  Forall (λ r, length r = shape1 t) (rows t).

(** The number of NaN cells of the table. *)
Definition nan_cells (t : table) : nat :=
  length (filter (λ v, Np.isnan v = true) (concat (rows t))).


(** A 1-D array with one missing value. *)
Definition one_variable : array_like := Seq1 [2; nan; 4; 9]%float.

(** Two variables observed twice. *)
Definition two_short_columns : array_like := Seq2 [[1; 4]; [2; 6]]%float.

(** * Properties *)

(** ** The loop over the columns *)

Section ColumnLoop.

Context (L : Lib) (t : table).

#[local] Abbreviation body := (column_body L t).

Lemma body_x st i : x (body st i) = x st ++ [clean_column t i].
Proof. unfold column_body. by destruct (_ =? 0). Qed.

Lemma body_eq_var st i : eq_var (body st i) = eq_var st.
Proof. unfold column_body. by destruct (_ =? 0). Qed.

Lemma body_calls st i : calls (body st i) = calls st.
Proof. unfold column_body. by destruct (_ =? 0). Qed.

Lemma body_out st i :
  out (body st i) =
  out st ++ (if decide (clean_len t i = 0) then [skip_notice i] else []).
Proof.
  unfold column_body, clean_len.
  destruct (Nat.eqb_spec (length (clean_column t i)) 0); case_decide;
    try lia; simpl; by rewrite ?app_nil_r.
Qed.

Lemma body_min_len st i :
  min_len (body st i) =
  min_len st + (if decide (2 < clean_len t i) then 1 else 0).
Proof.
  unfold column_body, clean_len.
  destruct (Nat.eqb_spec (length (clean_column t i)) 0); simpl.
  - case_decide; lia.
  - destruct (Nat.ltb_spec 2 (length (clean_column t i))); case_decide; lia.
Qed.

Lemma body_labels st i :
  labels (body st i) =
  if decide (clean_len t i = 0) then labels st else handle_labels (labels st) i.
Proof.
  unfold column_body, clean_len.
  destruct (Nat.eqb_spec (length (clean_column t i)) 0); case_decide;
    try lia; done.
Qed.

Lemma body_shape_ok c st i : shape_ok c st → shape_ok c (body st i).
Proof.
  unfold shape_ok, column_body. destruct (_ =? 0); simpl; [done|].
  by rewrite !length_insert.
Qed.

Lemma body_row_other st i j : i ≠ j → row (body st i) j = row st j.
Proof.
  intros Hij. unfold row, column_body. destruct (_ =? 0); simpl; [done|].
  by rewrite !list_lookup_insert_ne.
Qed.

Lemma body_row_same c st i :
  shape_ok c st → i < c →
  row (body st i) i =
  if decide (clean_len t i = 0) then row st i
  else some_row (summary L (clean_column t i)).
Proof.
  intros (H1 & H2 & H3 & H4 & H5) Hi. unfold row, column_body, clean_len.
  destruct (Nat.eqb_spec (length (clean_column t i)) 0); case_decide;
    try lia; simpl; [done|].
  rewrite !list_lookup_insert_eq by lia. done.
Qed.

(** The fields after the rounds [js], from any state. *)

Lemma rounds_x js st :
  x (foldl body st js) = x st ++ map (clean_column t) js.
Proof.
  revert st. induction js as [|i js IH]; intros st; simpl.
  - by rewrite app_nil_r.
  - by rewrite IH, body_x, <- app_assoc.
Qed.

Lemma rounds_eq_var js st : eq_var (foldl body st js) = eq_var st.
Proof.
  revert st. induction js as [|i js IH]; intros st; simpl; [done|].
  by rewrite IH, body_eq_var.
Qed.

Lemma rounds_calls js st : calls (foldl body st js) = calls st.
Proof.
  revert st. induction js as [|i js IH]; intros st; simpl; [done|].
  by rewrite IH, body_calls.
Qed.

Lemma rounds_out js st :
  out (foldl body st js) =
  out st ++ map skip_notice (filter (λ i, clean_len t i = 0) js).
Proof.
  revert st. induction js as [|i js IH]; intros st; simpl.
  - by rewrite app_nil_r.
  - rewrite IH, body_out, filter_cons. case_decide; simpl.
    + by rewrite <- app_assoc.
    + by rewrite app_nil_r.
Qed.

Lemma rounds_min_len js st :
  min_len (foldl body st js) =
  min_len st + length (filter (λ i, 2 < clean_len t i) js).
Proof.
  revert st. induction js as [|i js IH]; intros st; simpl; [lia|].
  rewrite IH, body_min_len, filter_cons. case_decide; simpl; lia.
Qed.

Lemma rounds_labels js st :
  labels (foldl body st js) =
  foldl handle_labels (labels st) (filter (λ i, clean_len t i ≠ 0) js).
Proof.
  revert st. induction js as [|i js IH]; intros st; simpl; [done|].
  rewrite IH, body_labels, filter_cons.
  destruct (decide (clean_len t i = 0)); case_decide; try done.
Qed.

Lemma rounds_shape_ok c js st : shape_ok c st → shape_ok c (foldl body st js).
Proof.
  revert st. induction js as [|i js IH]; intros st Hok; simpl; [done|].
  by apply IH, body_shape_ok.
Qed.

Lemma rounds_row c js st j :
  shape_ok c st → j < c →
  row (foldl body st js) j =
  if decide (j ∈ js ∧ clean_len t j ≠ 0)
  then some_row (summary L (clean_column t j))
  else row st j.
Proof.
  revert st. induction js as [|i js IH]; intros st Hok Hj; cbn [foldl].
  - rewrite decide_False; [done|]. intros [H _]. by apply elem_of_nil in H.
  - rewrite IH by eauto using body_shape_ok.
    destruct (decide (j ∈ js ∧ clean_len t j ≠ 0)) as [[Hin Hne]|Hno].
    + rewrite decide_True; [done|]. split; [by right|done].
    + destruct (decide (i = j)) as [->|Hij].
      * rewrite (body_row_same c) by done.
        destruct (decide (clean_len t j = 0)) as [Hz|Hnz].
        -- rewrite decide_False; [done|]. intros [_ ?]; done.
        -- rewrite decide_True; [done|]. split; [by left|done].
      * rewrite body_row_other by done.
        rewrite decide_False; [done|].
        intros [Hin ?]. apply elem_of_cons in Hin as [->|Hin]; [done|].
        apply Hno. done.
Qed.

End ColumnLoop.

(** ** The loop that removes the empty arrays *)

Lemma remove_empty_from i (xs : list (list float)) :
  remove_empty i xs = take i xs ++ filter (λ xi, length xi ≠ 0) (drop i xs).
Proof.
  funelim (remove_empty i xs);
    repeat match goal with H : exist _ _ _ = _ |- _ => clear H
                      | H : sigmaI _ _ _ = _ |- _ => clear H end.
  - (* [i] is past the end: the loop stops *)
    apply lookup_ge_None in e.
    by rewrite take_ge, drop_ge, app_nil_r by done.
  - (* [x[i]] is empty: it is popped *)
    match goal with IH : remove_empty _ _ = take _ _ ++ _ |- _ => rewrite IH end.
    apply Nat.eqb_eq in e0.
    rewrite (drop_S xs xi i) by done.
    rewrite filter_cons_False by lia.
    rewrite delete_take_drop.
    pose proof (lookup_lt_Some _ _ _ e) as Hlt.
    rewrite take_app_length' by (rewrite length_take; lia).
    rewrite drop_app_length' by (rewrite length_take; lia).
    done.
  - (* [x[i]] is kept *)
    match goal with IH : remove_empty _ _ = take _ _ ++ _ |- _ => rewrite IH end.
    apply Nat.eqb_neq in e0.
    rewrite (take_S_r xs i xi) by done.
    rewrite (drop_S xs xi i) by done.
    rewrite filter_cons_True by done.
    by rewrite <- app_assoc.
Qed.

Example remove_empty_pops :
  remove_empty 0 [[]; [1]; []; []; [2; 3]]%float = [[1]; [2; 3]]%float.
Proof. reflexivity. Qed.

Lemma remove_empty_filter (xs : list (list float)) :
  remove_empty 0 xs = filter (λ xi, length xi ≠ 0) xs.
Proof. by rewrite remove_empty_from. Qed.

(** ** The state when [statprint] is called *)

Lemma undefined_is_NaN : Np.zeros_times_NaN = Np.NaN.
Proof. reflexivity. Qed.

Lemma init_shape_ok c labels0 out0 : shape_ok c (init_locals c labels0 out0).
Proof. unfold shape_ok; simpl. by rewrite !length_replicate. Qed.

Lemma init_row c labels0 out0 j :
  j < c → row (init_locals c labels0 out0) j = some_row undefined_profile.
Proof.
  intros Hj. unfold row; simpl.
  by rewrite !lookup_replicate_2.
Qed.

Lemma variance_test_row L st j : row (variance_test L st) j = row st j.
Proof. unfold variance_test. by destruct (_ && _). Qed.

Lemma variance_test_labels L st : labels (variance_test L st) = labels st.
Proof. unfold variance_test. by destruct (_ && _). Qed.

Lemma variance_test_out L st : out (variance_test L st) = out st.
Proof. unfold variance_test. by destruct (_ && _). Qed.

Lemma variance_test_x L st : x (variance_test L st) = x st.
Proof. unfold variance_test. by destruct (_ && _). Qed.

Lemma variance_test_shape_ok L c st : shape_ok c st → shape_ok c (variance_test L st).
Proof. unfold variance_test. by destruct (_ && _). Qed.

Lemma all_normal_lookup (arr : list (float * float)) level :
  all_normal arr level = true ↔
  ∀ j r, arr !! j = Some r → Np.gt r.2 level = true.
Proof.
  unfold all_normal. rewrite <- Is_true_true, forallb_True, Forall_lookup.
  split; intros H j r Hr; specialize (H j r Hr); by apply Is_true_true.
Qed.

Section Core.

Context (L : Lib) (t : table) (labels0 : list string) (out0 : list line).

#[local] Abbreviation st := (statdesc_core L t labels0 out0).
#[local] Abbreviation c := (shape1 t).

Lemma core_shape_ok : shape_ok c st.
Proof.
  apply variance_test_shape_ok. unfold drop_empty, shape_ok; simpl.
  apply (rounds_shape_ok L t c), init_shape_ok.
Qed.

Lemma core_row j : j < c → row st j = some_row (column_profile L t j).
Proof.
  intros Hj. unfold statdesc_core. rewrite variance_test_row.
  change (row (drop_empty ?s) j) with (row s j).
  unfold column_loop. rewrite (rounds_row L t c) by auto using init_shape_ok.
  unfold column_profile.
  destruct (decide (clean_len t j = 0)) as [Hz|Hnz].
  - rewrite decide_False by (intros [_ ?]; done). by apply init_row.
  - rewrite decide_True; [done|]. split; [|done].
    apply elem_of_seq. lia.
Qed.

Lemma core_x : x st = samples t.
Proof.
  unfold statdesc_core. rewrite variance_test_x. simpl.
  unfold column_loop. by rewrite remove_empty_filter, rounds_x.
Qed.

Lemma core_labels :
  labels st =
  foldl handle_labels labels0 (filter (λ i, clean_len t i ≠ 0) (seq 0 c)).
Proof.
  unfold statdesc_core. rewrite variance_test_labels. simpl.
  unfold column_loop. by rewrite rounds_labels.
Qed.

Lemma core_out :
  out st = out0 ++ map skip_notice (filter (λ i, clean_len t i = 0) (seq 0 c)).
Proof.
  unfold statdesc_core. rewrite variance_test_out. simpl.
  unfold column_loop. by rewrite rounds_out.
Qed.

Lemma samples_length :
  length (samples t) = count_columns t (λ i, clean_len t i ≠ 0).
Proof.
  unfold samples, count_columns, clean_len.
  induction (seq 0 c) as [|i js IH]; [done|].
  rewrite map_cons, !filter_cons. case_decide; simpl; by rewrite IH.
Qed.

Lemma core_normality_all level :
  all_normal (normality st) level = true ↔
  ∀ j, j < c → Np.gt (p_value L t j) level = true.
Proof.
  rewrite all_normal_lookup. split.
  - intros H j Hj. pose proof (core_row j Hj) as Hr.
    unfold row, some_row in Hr. injection Hr as _ _ _ _ Hn.
    by apply (H j _ Hn).
  - intros H j r Hr.
    assert (j < c) as Hj.
    { apply lookup_lt_Some in Hr. destruct core_shape_ok as (_&_&_&_&<-). done. }
    pose proof (core_row j Hj) as Hrow. unfold row, some_row in Hrow.
    injection Hrow as _ _ _ _ Hn. rewrite Hr in Hn. injection Hn as ->.
    by apply H.
Qed.

#[local] Abbreviation s1 :=
  (drop_empty (column_loop L t (init_locals c labels0 out0))).

Lemma looped_x : x s1 = samples t.
Proof. simpl. unfold column_loop. by rewrite remove_empty_filter, rounds_x. Qed.

Lemma looped_min_len : min_len s1 = count_columns t (λ i, 2 < clean_len t i).
Proof. simpl. unfold column_loop. by rewrite rounds_min_len. Qed.

Lemma looped_calls : calls s1 = [].
Proof. simpl. unfold column_loop. by rewrite rounds_calls. Qed.

Lemma looped_eq_var : eq_var s1 = [undefined2].
Proof. simpl. unfold column_loop. by rewrite rounds_eq_var. Qed.

Lemma guard_decides :
  (1 <? length (x s1)) && (1 <? min_len s1) = bool_decide (test_guard t).
Proof.
  rewrite looped_x, looped_min_len, samples_length. unfold test_guard.
  destruct (Nat.ltb_spec 1 (count_columns t (λ i, clean_len t i ≠ 0)));
    destruct (Nat.ltb_spec 1 (count_columns t (λ i, 2 < clean_len t i)));
    simpl; symmetry;
    (apply bool_decide_eq_true_2 || apply bool_decide_eq_false_2); lia.
Qed.

Lemma core_normality : normality st = normality s1.
Proof. unfold statdesc_core, variance_test. by destruct (_ && _). Qed.

Lemma core_calls :
  calls st =
  if decide (test_guard t) then
    [if all_normal (normality st) 0.05 then Bartlett (samples t)
     else Levene (samples t) median]
  else [].
Proof.
  rewrite core_normality. unfold statdesc_core, variance_test.
  rewrite guard_decides, looped_calls, looped_x.
  destruct (decide (test_guard t)) as [Hg|Hg].
  - rewrite bool_decide_eq_true_2 by done. simpl.
    by destruct (all_normal _ _).
  - rewrite bool_decide_eq_false_2 by done. apply looped_calls.
Qed.

Lemma core_eq_var :
  eq_var st =
  if decide (test_guard t) then
    [if all_normal (normality st) 0.05 then stats_bartlett L (samples t)
     else stats_levene L (samples t) median]
  else [undefined2].
Proof.
  rewrite core_normality. unfold statdesc_core, variance_test.
  rewrite guard_decides, looped_eq_var, looped_x.
  destruct (decide (test_guard t)) as [Hg|Hg].
  - rewrite bool_decide_eq_true_2 by done. simpl.
    by destruct (all_normal _ _).
  - rewrite bool_decide_eq_false_2 by done. apply looped_eq_var.
Qed.

End Core.

(** ** [statprint] completes exactly when every column has a label *)

Lemma succeeds_print l : succeeds (print l).
Proof. intros out. by eexists. Qed.

Lemma succeeds_ret : succeeds (mret tt).
Proof. intros out. by eexists. Qed.

Lemma succeeds_seq (m k : io unit) : succeeds m → succeeds k → succeeds (m ;; k).
Proof.
  intros Hm Hk out. destruct (Hm out) as [out1 H1], (Hk out1) as [out2 H2].
  exists out2. unfold mbind, io_bind. by rewrite H1.
Qed.

Lemma raises_first e (m k : io unit) : raises e m → raises e (m ;; k).
Proof.
  intros Hm out. destruct (Hm out) as [out1 H1].
  exists out1. unfold mbind, io_bind. by rewrite H1.
Qed.

Lemma raises_later e (m k : io unit) : succeeds m → raises e k → raises e (m ;; k).
Proof.
  intros Hm Hk out. destruct (Hm out) as [out1 H1], (Hk out1) as [out2 H2].
  exists out2. unfold mbind, io_bind. by rewrite H1.
Qed.

Lemma succeeds_for_in js body :
  (∀ i, i ∈ js → succeeds (body i)) → succeeds (for_in js body).
Proof.
  induction js as [|i js IH]; intros H; simpl; [apply succeeds_ret|].
  apply succeeds_seq; [apply H; by left|]. apply IH. intros; apply H; by right.
Qed.

Lemma raises_for_in e js body :
  (∀ i, i ∈ js → succeeds (body i) ∨ raises e (body i)) →
  (∃ i, i ∈ js ∧ raises e (body i)) → raises e (for_in js body).
Proof.
  induction js as [|i js IH]; intros Hall (k & Hk & Hr).
  - by apply elem_of_nil in Hk.
  - simpl. destruct (Hall i) as [Hs|He]; [by left| |by apply raises_first].
    apply raises_later; [done|]. apply IH.
    + intros; apply Hall; by right.
    + apply elem_of_cons in Hk as [->|Hk]; [|eauto].
      exfalso. destruct (Hs []) as [o1 H1], (Hr []) as [o2 H2]. congruence.
Qed.

Section PrintRows.

Context {A : Type} (f : string → A → line) (labels0 : list string) (arr : list A).

Lemma print_row_succeeds i :
  i < length labels0 → i < length arr → succeeds (print_row f labels0 arr i).
Proof.
  intros [lab Hl]%lookup_lt_is_Some_2 [r Hr]%lookup_lt_is_Some_2 out.
  eexists. unfold print_row, item, mbind, io_bind. rewrite Hl, Hr. done.
Qed.

Lemma print_row_raises i :
  ¬ (i < length labels0 ∧ i < length arr) →
  raises IndexError (print_row f labels0 arr i).
Proof.
  intros Hno out. exists out. unfold print_row, item, mbind, io_bind.
  destruct (labels0 !! i) as [lab|] eqn:Hl; [|done].
  destruct (arr !! i) as [r|] eqn:Hr; [|done].
  apply lookup_lt_Some in Hl, Hr. lia.
Qed.

Lemma print_table_succeeds n :
  n ≤ length labels0 → n ≤ length arr → succeeds (print_table f labels0 arr n).
Proof.
  intros Hl Ha. apply succeeds_for_in. intros i [_ Hi]%elem_of_seq.
  apply print_row_succeeds; lia.
Qed.

Lemma print_table_raises n :
  length labels0 < n → raises IndexError (print_table f labels0 arr n).
Proof.
  intros Hl. apply raises_for_in.
  - intros i _.
    destruct (decide (i < length labels0 ∧ i < length arr)) as [[??]|?];
      [left; by apply print_row_succeeds | right; by apply print_row_raises].
  - exists (length labels0). split; [apply elem_of_seq; lia|].
    apply print_row_raises. lia.
Qed.

End PrintRows.

Section Statprint.

Context (m_sd0 ci0 min_max0 : list (float * float))
  (quartiles0 : list (float * float * float))
  (normality0 eq_var0 : list (float * float)) (labels0 : list string)
  (alpha : float) (nrow ncol nmiss0 nx : nat).

#[local] Abbreviation report :=
  (statprint m_sd0 ci0 min_max0 quartiles0 normality0 eq_var0 labels0 alpha
     nrow ncol nmiss0 nx).

Lemma statprint_succeeds :
  ncol ≤ length labels0 →
  ncol ≤ length m_sd0 → ncol ≤ length ci0 → ncol ≤ length min_max0 →
  ncol ≤ length quartiles0 → ncol ≤ length normality0 →
  0 < length eq_var0 →
  succeeds report.
Proof.
  intros Hl H1 H2 H3 H4 H5 [r Hr]%lookup_lt_is_Some_2.
  unfold statprint.
  repeat first
    [ apply succeeds_seq
    | apply succeeds_print
    | apply succeeds_ret
    | by apply print_table_succeeds ].
  destruct (1 <? nx); [|apply succeeds_ret].
  repeat first
    [ apply succeeds_seq
    | apply succeeds_print
    | by destruct (all_normal _ _); apply succeeds_print ].
  intros out. eexists. unfold item, mbind, io_bind. by rewrite Hr.
Qed.

Lemma statprint_raises :
  length labels0 < ncol → raises IndexError report.
Proof.
  intros Hl. unfold statprint.
  repeat (apply raises_later; [apply succeeds_print|]).
  apply raises_first. by apply print_table_raises.
Qed.

End Statprint.

(** ** What a call leaves behind *)

Section Statdesc.

Context (L : Lib) (h : heap) (data : array_like) (missing : missing_arg)
  (labels0 : option (list string)) (alpha : float).
Context (a : ndarray) (Ha : asarray data = inr a).

#[local] Abbreviation t := (normalize a missing).
#[local] Abbreviation st :=
  (statdesc_core L t (bound_labels h labels0) (stdout h)).
#[local] Abbreviation r := (statdesc L h data missing labels0 alpha).

Lemma statdesc_tests_run : tests_run r = calls st.
Proof using Ha. unfold statdesc. by rewrite Ha. Qed.

Lemma statdesc_labels_after : labels_after r = labels st.
Proof using Ha. unfold statdesc. by rewrite Ha. Qed.


Lemma statdesc_default_labels :
  default_labels (heap_after r) =
  match labels0 with None => labels st | Some _ => default_labels h end.
Proof using Ha. unfold statdesc. by rewrite Ha. Qed.

Lemma statdesc_returns :
  shape1 t ≤ length (labels st) →
  outcome r = inr (Results (m_sd st) (ci st) (min_max st) (quartiles st)
                     (normality st) (eq_var st)).
Proof using Ha.
  intros Hl. unfold statdesc. rewrite Ha. simpl.
  destruct (core_shape_ok L t (bound_labels h labels0) (stdout h))
    as (H1 & H2 & H3 & H4 & H5).
  edestruct (statprint_succeeds (m_sd st) (ci st) (min_max st) (quartiles st)
               (normality st) (eq_var st) (labels st) alpha (shape0 t)
               (shape1 t) (nmiss st) (length (x st))) as [out' Hp];
    [done|lia|lia|lia|lia|lia| |by rewrite Hp].
  rewrite core_eq_var. case_decide; simpl; lia.
Qed.

Lemma statdesc_raises :
  length (labels st) < shape1 t → outcome r = inl IndexError.
Proof using Ha.
  intros Hl. unfold statdesc. rewrite Ha. simpl.
  edestruct (statprint_raises (m_sd st) (ci st) (min_max st) (quartiles st)
               (normality st) (eq_var st) (labels st) alpha (shape0 t)
               (shape1 t) (nmiss st) (length (x st))) as [out' Hp];
    [done|by rewrite Hp].
Qed.

(** A call returns exactly when the list of labels covers every column,
    and then returns the six arrays as they are when [statprint] is
    called. *)
Lemma statdesc_returned res :
  outcome r = inr res →
  shape1 t ≤ length (labels st) ∧
  res = Results (m_sd st) (ci st) (min_max st) (quartiles st)
          (normality st) (eq_var st).
Proof using Ha.
  intros Hres. destruct (decide (shape1 t ≤ length (labels st))) as [Hl|Hl].
  - split; [done|]. rewrite statdesc_returns in Hres by done. congruence.
  - rewrite statdesc_raises in Hres by lia. done.
Qed.

End Statdesc.

(** ** NaN in comparisons *)

Lemma SFeqb_refl_false f : SFeqb f f = false → f = S754_nan.
Proof.
  destruct f as [s|s| |s m e]; try done; unfold SFeqb; simpl.
  - by destruct s.
  - rewrite Z.compare_refl. destruct s; by rewrite Pos.compare_cont_refl.
Qed.

Lemma nan_never_greater p c : Np.isnan p = true → Np.gt p c = false.
Proof.
  unfold Np.isnan, is_nan, Np.gt. intros H%negb_true_iff.
  rewrite FloatAxioms.eqb_spec in H. apply SFeqb_refl_false in H.
  rewrite FloatAxioms.ltb_spec, H. unfold SFltb. by destruct (Prim2SF c).
Qed.

(** ** The choice between Bartlett's and Levene's test *)

Lemma short_column_p_value L t j : clean_len t j ≤ 2 → p_value L t j = Np.NaN.
Proof.
  intros Hj. unfold p_value, column_profile. case_decide; [done|].
  unfold summary, clean_len in *; simpl.
  by destruct (Nat.ltb_spec 2 (length (clean_column t j))); [lia|].
Qed.

Section Choice.

Context (L : Lib) (h : heap) (data : array_like) (missing : missing_arg)
  (labels0 : option (list string)) (alpha : float).
Context (a : ndarray) (Ha : asarray data = inr a).

#[local] Abbreviation tbl := (normalize a missing).
#[local] Abbreviation res := (statdesc L h data missing labels0 alpha).

Lemma tests_run_none : ¬ test_guard tbl → tests_run res = [].
Proof using Ha.
  intros Hg. rewrite (statdesc_tests_run _ _ _ _ _ _ _ Ha), core_calls.
  by rewrite decide_False.
Qed.

Lemma tests_run_guard : tests_run res ≠ [] → test_guard tbl.
Proof using Ha.
  intros Hrun. destruct (decide (test_guard tbl)); [done|].
  by rewrite tests_run_none in Hrun.
Qed.

Lemma tests_run_choice :
  test_guard tbl →
  (tests_run res = [Bartlett (samples tbl)] ∧
     ∀ j, j < shape1 tbl → Np.gt (p_value L tbl j) 0.05 = true) ∨
  (tests_run res = [Levene (samples tbl) median] ∧
     ¬ ∀ j, j < shape1 tbl → Np.gt (p_value L tbl j) 0.05 = true).
Proof using Ha.
  intros Hg. rewrite (statdesc_tests_run _ _ _ _ _ _ _ Ha), core_calls.
  rewrite decide_True by done.
  destruct (all_normal _ _) eqn:Hn.
  - left. split; [done|]. exact (proj1 (core_normality_all _ _ _ _ _) Hn).
  - right. split; [done|]. intros Hall.
    pose proof (proj2 (core_normality_all L tbl (bound_labels h labels0)
                         (stdout h) _) Hall).
    congruence.
Qed.

Lemma nan_p_value_selects_levene j :
  tests_run res ≠ [] → j < shape1 tbl → Np.isnan (p_value L tbl j) = true →
  tests_run res = [Levene (samples tbl) median].
Proof using Ha.
  intros Hg%tests_run_guard Hj Hnan.
  destruct (tests_run_choice Hg) as [[_ Hall]|[? _]]; [|done].
  specialize (Hall j Hj). rewrite nan_never_greater in Hall; done.
Qed.

End Choice.

(** Both tests are reached: on two full columns Bartlett's test is run when
    Shapiro-Wilk answers p = 0.6, Levene's when it answers p = 0.01. *)
Example bartlett_when_normal :
  tests_run (statdesc_default (lib_with 0.98 0.6) fresh two_full_columns) =
  [Bartlett [[1; 2; 3]; [4; 4; 7]]%float].
Proof. vm_compute. done. Qed.

Example levene_when_not_normal :
  tests_run (statdesc_default (lib_with 0.7 0.01) fresh two_full_columns) =
  [Levene [[1; 2; 3]; [4; 4; 7]]%float median].
Proof. vm_compute. done. Qed.

(** C2. Whenever the test for equality of variances runs, it is Bartlett's
    test on the non-empty clean columns exactly when the normality p-value of
    every column exceeds 0.05, and it is Levene's test centered on the
    median exactly when some column's p-value does not. *)
Theorem C2_bartlett_iff_all_normal L h data missing labels0 alpha a :
  asarray data = inr a →
  let t := normalize a missing in
  let r := statdesc L h data missing labels0 alpha in
  tests_run r ≠ [] →
  (tests_run r = [Bartlett (samples t)] ↔
     ∀ j, j < shape1 t → Np.gt (p_value L t j) 0.05 = true) ∧
  (tests_run r = [Levene (samples t) median] ↔
     ¬ ∀ j, j < shape1 t → Np.gt (p_value L t j) 0.05 = true).
Proof.
  intros Ha t r Hrun. subst t r.
  apply (tests_run_guard _ _ _ _ _ _ _ Ha) in Hrun.
  destruct (tests_run_choice L h data missing labels0 alpha a Ha Hrun)
    as [[-> Hall]|[-> Hno]]; split; split; try done.
Qed.

Lemma C2_witness :
  let t := normalize sample_array (MissingStr "NaN") in
  let r := statdesc (lib_with 0.98 0.6) fresh sample_data (MissingStr "NaN")
             (Some sample_labels) 0.05%float in
  asarray sample_data = inr sample_array ∧ tests_run r ≠ [] ∧
  (tests_run r = [Bartlett (samples t)] ↔
     ∀ j, j < shape1 t →
       Np.gt (p_value (lib_with 0.98 0.6) t j) 0.05 = true) ∧
  (tests_run r = [Levene (samples t) median] ↔
     ¬ ∀ j, j < shape1 t →
       Np.gt (p_value (lib_with 0.98 0.6) t j) 0.05 = true).
Proof.
  split; [reflexivity|]. split; [vm_compute; discriminate|].
  apply (C2_bartlett_iff_all_normal (lib_with 0.98 0.6) fresh sample_data
           (MissingStr "NaN") (Some sample_labels) 0.05%float sample_array).
  - reflexivity.
  - vm_compute; discriminate.
Defined.

(** C9. Whenever the test for equality of variances runs and some column has
    at most two values left after the missing ones are removed, that
    column's normality p-value is NaN and the test run is Levene's, centered
    on the median. *)
Theorem C9_short_column_selects_levene L h data missing labels0 alpha a j :
  asarray data = inr a →
  let t := normalize a missing in
  let r := statdesc L h data missing labels0 alpha in
  tests_run r ≠ [] → j < shape1 t → clean_len t j ≤ 2 →
  p_value L t j = Np.NaN ∧ Np.gt (p_value L t j) 0.05 = false ∧
  tests_run r = [Levene (samples t) median].
Proof.
  intros Ha t r Hrun Hj Hshort. subst t r.
  pose proof (short_column_p_value L _ j Hshort) as Hp.
  split; [done|]. rewrite Hp at 1. split; [done|].
  apply (nan_p_value_selects_levene _ _ _ _ _ _ _ Ha j); [done..|].
  by rewrite Hp.
Qed.

Lemma C9_witness :
  let t := normalize sample_array (MissingStr "NaN") in
  let r := statdesc (lib_with 0.98 0.6) fresh sample_data (MissingStr "NaN")
             (Some sample_labels) 0.05%float in
  p_value (lib_with 0.98 0.6) t 3 = Np.NaN ∧
  Np.gt (p_value (lib_with 0.98 0.6) t 3) 0.05 = false ∧
  tests_run r = [Levene (samples t) median].
Proof.
  apply (C9_short_column_selects_levene (lib_with 0.98 0.6) fresh sample_data
           (MissingStr "NaN") (Some sample_labels) 0.05%float sample_array 3).
  - reflexivity.
  - vm_compute; discriminate.
  - vm_compute; lia.
  - vm_compute; lia.
Defined.

(** ** The result of the test for equality of variances *)

(** C3. A test for equality of variances is run if and only if at least two
    clean columns are not empty and at least two clean columns hold more
    than two values. When it is run, the returned [eq_var] is its result;
    otherwise no test is run and the returned [eq_var] is still the NaN
    marker in both fields. *)
Theorem C3_eq_var_computed_iff L h data missing labels0 alpha a :
  asarray data = inr a →
  let t := normalize a missing in
  let r := statdesc L h data missing labels0 alpha in
  (tests_run r ≠ [] ↔
     2 ≤ count_columns t (λ i, clean_len t i ≠ 0) ∧
     2 ≤ count_columns t (λ i, 2 < clean_len t i)) ∧
  ∀ res, outcome r = inr res →
    (tests_run r = [Bartlett (samples t)] ∧
       ret_eq_var res = [stats_bartlett L (samples t)]) ∨
    (tests_run r = [Levene (samples t) median] ∧
       ret_eq_var res = [stats_levene L (samples t) median]) ∨
    (tests_run r = [] ∧ ret_eq_var res = [(Np.NaN, Np.NaN)]).
Proof.
  intros Ha t r. subst t r. split.
  - split; [apply (tests_run_guard _ _ _ _ _ _ _ Ha)|].
    intros Hg. rewrite (statdesc_tests_run _ _ _ _ _ _ _ Ha), core_calls.
    by rewrite decide_True.
  - intros res [_ ->]%(statdesc_returned _ _ _ _ _ _ _ Ha). simpl.
    rewrite (statdesc_tests_run _ _ _ _ _ _ _ Ha), core_calls, core_eq_var.
    case_decide; [|by right; right].
    destruct (all_normal _ _); [by left | by right; left].
Qed.

Lemma C3_witness :
  let t := normalize sample_array (MissingStr "NaN") in
  let r := statdesc (lib_with 0.98 0.6) fresh sample_data (MissingStr "NaN")
             (Some sample_labels) 0.05%float in
  (tests_run r ≠ [] ↔
     2 ≤ count_columns t (λ i, clean_len t i ≠ 0) ∧
     2 ≤ count_columns t (λ i, 2 < clean_len t i)) ∧
  ∀ res, outcome r = inr res →
    (tests_run r = [Bartlett (samples t)] ∧
       ret_eq_var res = [stats_bartlett (lib_with 0.98 0.6) (samples t)]) ∨
    (tests_run r = [Levene (samples t) median] ∧
       ret_eq_var res = [stats_levene (lib_with 0.98 0.6) (samples t) median]) ∨
    (tests_run r = [] ∧ ret_eq_var res = [(Np.NaN, Np.NaN)]).
Proof.
  apply (C3_eq_var_computed_iff (lib_with 0.98 0.6) fresh sample_data
           (MissingStr "NaN") (Some sample_labels) 0.05%float sample_array).
  reflexivity.
Defined.

(** ** One row per column *)

Section Rows.

Context (L : Lib) (h : heap) (data : array_like) (missing : missing_arg)
  (labels0 : option (list string)) (alpha : float).
Context (a : ndarray) (Ha : asarray data = inr a).

#[local] Abbreviation tbl := (normalize a missing).

(** The rows of a returned result are the profiles of the columns. *)
Lemma returned_row res j :
  outcome (statdesc L h data missing labels0 alpha) = inr res →
  j < shape1 tbl →
  (ret_m_sd res !! j, ret_ci res !! j, ret_min_max res !! j,
   ret_quartiles res !! j, ret_normality res !! j) =
  some_row (column_profile L tbl j).
Proof using Ha.
  intros [_ ->]%(statdesc_returned _ _ _ _ _ _ _ Ha) Hj. simpl.
  by apply core_row.
Qed.

Lemma returned_lengths res :
  outcome (statdesc L h data missing labels0 alpha) = inr res →
  length (ret_m_sd res) = shape1 tbl ∧ length (ret_ci res) = shape1 tbl ∧
  length (ret_min_max res) = shape1 tbl ∧
  length (ret_quartiles res) = shape1 tbl ∧
  length (ret_normality res) = shape1 tbl ∧ length (ret_eq_var res) = 1.
Proof using Ha.
  intros [_ ->]%(statdesc_returned _ _ _ _ _ _ _ Ha). simpl.
  destruct (core_shape_ok L tbl (bound_labels h labels0) (stdout h))
    as (?&?&?&?&?).
  repeat split; try done.
  rewrite core_eq_var. by case_decide.
Qed.

End Rows.

(** C7. When a call returns, each of the five per-column arrays has one row
    per column of the input, and the rows of the columns that hold only
    missing values hold NaN in every field. *)
Theorem C7_one_row_per_column L h data missing labels0 alpha a res :
  asarray data = inr a →
  outcome (statdesc L h data missing labels0 alpha) = inr res →
  let t := normalize a missing in
  (length (ret_m_sd res) = shape1 t ∧ length (ret_ci res) = shape1 t ∧
   length (ret_min_max res) = shape1 t ∧ length (ret_quartiles res) = shape1 t ∧
   length (ret_normality res) = shape1 t) ∧
  ∀ j, j < shape1 t → clean_len t j = 0 →
    ret_m_sd res !! j = Some (Np.NaN, Np.NaN) ∧
    ret_ci res !! j = Some (Np.NaN, Np.NaN) ∧
    ret_min_max res !! j = Some (Np.NaN, Np.NaN) ∧
    ret_quartiles res !! j = Some (Np.NaN, Np.NaN, Np.NaN) ∧
    ret_normality res !! j = Some (Np.NaN, Np.NaN).
Proof.
  intros Ha Hres t. subst t. split.
  - destruct (returned_lengths _ _ _ _ _ _ _ Ha _ Hres) as (?&?&?&?&?&_).
    done.
  - intros j Hj Hempty.
    pose proof (returned_row _ _ _ _ _ _ _ Ha _ j Hres Hj) as Hrow.
    unfold column_profile in Hrow. rewrite decide_True in Hrow by done.
    injection Hrow as H1 H2 H3 H4 H5.
    repeat split; [exact H1 | exact H2 | exact H3 | exact H4 | exact H5].
Qed.

Lemma C7_witness :
  let t := normalize sample_array (MissingStr "NaN") in
  ∃ res,
    outcome (statdesc (lib_with 0.98 0.6) fresh sample_data (MissingStr "NaN")
               (Some sample_labels) 0.05%float) = inr res ∧
    clean_len t 0 = 0 ∧
    length (ret_m_sd res) = 4 ∧
    ret_m_sd res !! 0 = Some (Np.NaN, Np.NaN) ∧
    ret_quartiles res !! 0 = Some (Np.NaN, Np.NaN, Np.NaN).
Proof.
  eexists. split; [vm_compute; reflexivity|].
  split; [reflexivity|].
  edestruct (C7_one_row_per_column (lib_with 0.98 0.6) fresh sample_data
               (MissingStr "NaN") (Some sample_labels) 0.05%float sample_array)
    as [(Hlen & _) Hrows]; [reflexivity | vm_compute; reflexivity |].
  destruct (Hrows 0) as (H1 & _ & _ & H4 & _); [vm_compute; lia | reflexivity|].
  split; [exact Hlen|]. split; [exact H1 | exact H4].
Defined.

(** C8. When a call returns and a column is left with exactly one value [v],
    and numpy's mean, minimum, maximum and median of the one-element array
    are [v] and its standard deviation with [ddof=1] is NaN, then the row of
    that column holds the mean [v], a NaN standard deviation, NaN in both
    bounds of the confidence interval and in both normality fields, and
    [v] as minimum, maximum and median. *)
Theorem C8_single_value_column L h data missing labels0 alpha a res j v :
  asarray data = inr a →
  let t := normalize a missing in
  j < shape1 t → clean_column t j = [v] →
  np_mean L [v] = v → np_std L [v] 1 = Np.NaN →
  np_min L [v] = v → np_max L [v] = v → np_median L [v] = v →
  outcome (statdesc L h data missing labels0 alpha) = inr res →
  ret_m_sd res !! j = Some (v, Np.NaN) ∧
  ret_ci res !! j = Some (Np.NaN, Np.NaN) ∧
  ret_normality res !! j = Some (Np.NaN, Np.NaN) ∧
  ret_min_max res !! j = Some (v, v) ∧
  ∃ q25 q75, ret_quartiles res !! j = Some (v, q25, q75).
Proof.
  intros Ha t Hj Hx Hmean Hstd Hmin Hmax Hmed Hres. subst t.
  pose proof (returned_row _ _ _ _ _ _ _ Ha _ j Hres Hj) as Hrow.
  unfold column_profile, clean_len in Hrow. rewrite Hx in Hrow.
  rewrite decide_False in Hrow by done.
  unfold some_row, summary in Hrow. simpl in Hrow.
  rewrite Hmean, Hstd, Hmin, Hmax, Hmed in Hrow.
  injection Hrow as -> -> -> -> ->. eauto 10.
Qed.

Lemma C8_witness :
  ∃ res,
    outcome (statdesc (lib_with 0.98 0.6) fresh sample_data (MissingStr "NaN")
               (Some sample_labels) 0.05%float) = inr res ∧
    ret_m_sd res !! 3 = Some (5%float, Np.NaN) ∧
    ret_ci res !! 3 = Some (Np.NaN, Np.NaN) ∧
    ret_normality res !! 3 = Some (Np.NaN, Np.NaN) ∧
    ret_min_max res !! 3 = Some (5%float, 5%float) ∧
    ∃ q25 q75, ret_quartiles res !! 3 = Some (5%float, q25, q75).
Proof.
  eexists. split; [vm_compute; reflexivity|].
  apply (C8_single_value_column (lib_with 0.98 0.6) fresh sample_data
           (MissingStr "NaN") (Some sample_labels) 0.05%float sample_array
           _ 3 5%float); try reflexivity.
  vm_compute; lia.
Defined.

(** ** Labels *)

Lemma pretty_N_go_ne_empty n s : s ≠ "" → pretty_N_go n s ≠ "".
Proof.
  revert s. induction (N.lt_wf_0 n) as [n _ IH]; intros s Hs.
  assert (n = 0 ∨ 0 < n)%N as [->|Hn] by lia.
  - by rewrite pretty_N_go_0.
  - rewrite pretty_N_go_step by done. apply IH; [by apply N.div_lt|done].
Qed.

Lemma str_truthy n : truthy (str n) = true.
Proof.
  assert (str n ≠ "") as Hne.
  { unfold str, pretty, pretty_nat, pretty, pretty_N.
    case_decide; [done|]. rewrite pretty_N_go_step by lia.
    by apply pretty_N_go_ne_empty. }
  by destruct (str n).
Qed.

Lemma has_label_spec labels0 i :
  has_label labels0 i = true ↔ ∃ s, labels0 !! i = Some s ∧ truthy s = true.
Proof.
  unfold has_label. split.
  - intros [Hi Hs]%andb_true_iff.
    destruct (labels0 !! i) as [s|]; [eauto|done].
  - intros (s & Hs & Ht). rewrite Hs. simpl. rewrite Ht, andb_true_r.
    apply Nat.ltb_lt. by eapply lookup_lt_Some.
Qed.

(** A usable label is never replaced. *)
Lemma handle_labels_keeps labels0 i s :
  truthy s = true → s ∈ labels0 → s ∈ handle_labels labels0 i.
Proof.
  intros Hs Hin. unfold handle_labels.
  destruct (has_label labels0 i) eqn:Hl; [done|].
  destruct (Nat.ltb_spec i (length labels0)) as [Hi|Hi].
  - apply list_elem_of_lookup in Hin as [k Hk].
    destruct (decide (k = i)) as [->|Hne].
    + assert (has_label labels0 i = true) by (apply has_label_spec; eauto).
      congruence.
    + apply list_elem_of_lookup. exists k. by rewrite list_lookup_insert_ne.
  - apply elem_of_app. by left.
Qed.

(** A column without a usable label gets [str(i+1)]. *)
Lemma handle_labels_adds labels0 i :
  has_label labels0 i = false → str (i + 1) ∈ handle_labels labels0 i.
Proof.
  intros Hl. unfold handle_labels. rewrite Hl.
  destruct (Nat.ltb_spec i (length labels0)) as [Hi|Hi].
  - apply list_elem_of_lookup. exists i. by apply list_lookup_insert_eq.
  - apply elem_of_app. right. by apply list_elem_of_singleton.
Qed.

Lemma handle_labels_rounds_keep js labels0 s :
  truthy s = true → s ∈ labels0 → s ∈ foldl handle_labels labels0 js.
Proof.
  revert labels0. induction js as [|i js IH]; intros labels0 Hs Hin; [done|].
  simpl. apply IH; [done|]. by apply handle_labels_keeps.
Qed.

(** The list of labels never shrinks. *)
Lemma handle_labels_length labels0 i :
  length labels0 ≤ length (handle_labels labels0 i).
Proof.
  unfold handle_labels. destruct (has_label labels0 i); [done|].
  destruct (i <? length labels0).
  - by rewrite length_insert.
  - rewrite length_app. lia.
Qed.

Lemma handle_labels_rounds_length js labels0 :
  length labels0 ≤ length (foldl handle_labels labels0 js).
Proof.
  revert labels0. induction js as [|i js IH]; intros labels0; [done|].
  simpl. etrans; [apply (handle_labels_length labels0 i)|apply IH].
Qed.

(** When every column is handled, each gets its label at its own position. *)
Lemma handle_labels_all labels0 k :
  foldl handle_labels labels0 (seq 0 k) =
  map (label_of labels0) (seq 0 k) ++ drop k labels0.
Proof.
  induction k as [|k IH]; [done|].
  rewrite seq_S, foldl_app, map_app, IH. simpl.
  set (done_ := map (label_of labels0) (seq 0 k)).
  assert (length done_ = k) as Hlen.
  { unfold done_. by rewrite length_map, length_seq. }
  unfold handle_labels, has_label, label_of.
  rewrite lookup_app_r, Hlen, Nat.sub_diag by lia.
  rewrite length_app, Hlen, lookup_drop, Nat.add_0_r.
  destruct (labels0 !! k) as [s|] eqn:Hk.
  - pose proof (lookup_lt_Some _ _ _ Hk) as Hlt.
    rewrite (drop_S _ _ _ Hk). simpl.
    destruct (Nat.ltb_spec k (k + S (length (drop (S k) labels0)))); [|lia].
    simpl. destruct (truthy s).
    + by rewrite <- app_assoc.
    + rewrite insert_app_r_alt, Hlen, Nat.sub_diag by lia.
      by rewrite <- app_assoc.
  - apply lookup_ge_None in Hk. rewrite !drop_ge by lia.
    simpl. rewrite Nat.add_0_r, Nat.ltb_irrefl. simpl.
    by rewrite !app_nil_r.
Qed.

Lemma filter_all {A} (P : A → Prop) `{!∀ x, Decision (P x)} (l : list A) :
  Forall P l → filter P l = l.
Proof.
  induction 1 as [|x l Hx _ IH]; [done|].
  by rewrite filter_cons_True, IH.
Qed.

Section Labels.

Context (L : Lib) (h : heap) (data : array_like) (missing : missing_arg)
  (labels0 : option (list string)) (alpha : float).
Context (a : ndarray) (Ha : asarray data = inr a).

#[local] Abbreviation tbl := (normalize a missing).
#[local] Abbreviation run0 := (statdesc L h data missing labels0 alpha).
#[local] Abbreviation entry := (bound_labels h labels0).

Lemma labels_after_rounds :
  labels_after run0 =
  foldl handle_labels entry
    (filter (λ i, clean_len tbl i ≠ 0) (seq 0 (shape1 tbl))).
Proof using Ha. by rewrite (statdesc_labels_after _ _ _ _ _ _ _ Ha), core_labels. Qed.

(** Without a column of missing values only, every column ends with a
    label at its own position: its own when it had one, [str(i+1)]
    otherwise; and the call returns. *)
Lemma labels_when_no_column_is_empty :
  (∀ i, i < shape1 tbl → clean_len tbl i ≠ 0) →
  labels_after run0 =
    map (label_of entry) (seq 0 (shape1 tbl)) ++ drop (shape1 tbl) entry ∧
  ∃ res, outcome run0 = inr res.
Proof using Ha.
  intros Hall.
  assert (labels_after run0 =
            map (label_of entry) (seq 0 (shape1 tbl)) ++
            drop (shape1 tbl) entry) as Hlab.
  { rewrite labels_after_rounds, filter_all; [apply handle_labels_all|].
    apply Forall_forall. intros i [_ Hi]%elem_of_seq. apply Hall. lia. }
  split; [done|]. eexists.
  apply (statdesc_returns L h data missing labels0 alpha a Ha).
  rewrite <- (statdesc_labels_after L h data missing labels0 alpha a Ha), Hlab.
  rewrite length_app, length_map, length_seq. lia.
Qed.

(** With a label slot for every column at entry, the call returns, whatever
    the columns hold. *)
Lemma returns_when_labels_cover_columns :
  shape1 tbl ≤ length entry → ∃ res, outcome run0 = inr res.
Proof using Ha.
  intros Hlen. eexists.
  apply (statdesc_returns L h data missing labels0 alpha a Ha).
  rewrite core_labels.
  etrans; [exact Hlen|]. apply handle_labels_rounds_length.
Qed.

(** The label synthesized for a column stays in the list until the end. *)
Lemma synthesized_label_stays i :
  i < shape1 tbl → clean_len tbl i ≠ 0 →
  has_label
    (labels (locals_at L tbl (init_locals (shape1 tbl) entry (stdout h)) i))
    i = false →
  str (i + 1) ∈ labels_after run0.
Proof using Ha.
  intros Hi Hne Hl. rewrite labels_after_rounds.
  unfold locals_at in Hl. rewrite rounds_labels in Hl. simpl in Hl.
  replace (shape1 tbl) with (i + S (shape1 tbl - S i)) at 1 by lia.
  rewrite seq_app, filter_app, foldl_app. simpl.
  rewrite filter_cons_True by done. simpl.
  apply handle_labels_rounds_keep; [apply str_truthy|].
  by apply handle_labels_adds.
Qed.

End Labels.

(** ** A column of missing values only *)

(** C4. The dataset [first_column_missing], passed with every optional
    argument omitted to a freshly started interpreter: the skip notice of
    column 1 is printed, once, no label is made for that column, and the
    call raises [IndexError] while it prints the first table, at the row of
    the second column; no tuple is returned. *)
Theorem C4_all_missing_column_raises L :
  let r := statdesc_default L fresh first_column_missing in
  outcome r = inl IndexError ∧
  labels_after r = ["2"] ∧
  stdout (heap_after r) =
    [Text "Skipping column 1, only missing data";
     rule;
     Text "Descriptive statistics for data (%d %s, %d %s)'           % (nrow, str_row, ncol, str_col) ";
     Text "%d missing values' % nmiss";
     rule;
     Fmt "%-10s %15s %15s" ["Variable"; "Mean"; "STD"] [];
     rule;
     Fmt "%-10s %15f %15f" ["2"] [Np.NaN; Np.NaN]].
Proof. destruct L. vm_compute. done. Qed.

(** C6. The same dataset with an empty list passed as [labels]: the list
    ends as [["2"]]. The column of missing values has no label, and the
    label of the second column sits at position 0. *)
Theorem C6_skipped_column_gets_no_label L :
  let r := statdesc L fresh first_column_missing (MissingStr "NaN") (Some [])
             0.05%float in
  labels_after r = ["2"] ∧
  labels_after r !! 0 ≠ Some (str 1) ∧
  labels_after r !! 1 = None.
Proof. destruct L. vm_compute. split; [done|]. split; [|done]. by intros [=]. Qed.

(** ** The confidence interval *)

Lemma summary_ci L (xs : list float) :
  p_ci (summary L xs) =
  if 1 <? length xs then
    let h := (stats_t_pdf L 0.975 (length xs - 1) * np_std L xs 1
              / Np.sqrt (Np.of_int (length xs)))%float in
    ((h * (-1) + np_mean L xs)%float, (h * 1 + np_mean L xs)%float)
  else (Np.NaN, Np.NaN).
Proof. unfold summary. simpl. by destruct (1 <? length xs). Qed.

Section Quantile.

#[local] Open Scope R_scope.

Lemma t1_pdf_below_third v : StudentT1.pdf v < / 3.
Proof.
  unfold StudentT1.pdf. pose proof PI2_3_2 as H3.
  assert (3 < PI) by (unfold PI2 in H3; lra).
  assert (3 < PI * (1 + v * v)) by nra.
  apply Rinv_lt_contravar; nra.
Qed.

Lemma t1_cdf_increasing v w : v < w → StudentT1.cdf v < StudentT1.cdf w.
Proof.
  intros H. unfold StudentT1.cdf.
  pose proof PI_RGT_0. pose proof (atan_increasing _ _ H).
  apply Rplus_lt_compat_l, Rmult_lt_compat_r; [|done].
  by apply Rinv_0_lt_compat.
Qed.

Lemma t1_cdf_one : StudentT1.cdf 1 = 3 / 4.
Proof.
  unfold StudentT1.cdf. rewrite atan_1. pose proof PI_RGT_0. field. lra.
Qed.

(** The density at 0.975 is not the critical value: the 97.5th percentile
    of Student's t with one degree of freedom is above 1, its density is
    below 1/3 everywhere. *)
Lemma t1_density_below_critical_value q :
  StudentT1.cdf q = 975 / 1000 →
  StudentT1.pdf (975 / 1000) < / 3 ∧ 1 < q.
Proof.
  intros Hq. split; [apply t1_pdf_below_third|].
  destruct (Rlt_le_dec 1 q) as [|Hle]; [done|]. exfalso.
  assert (StudentT1.cdf q <= StudentT1.cdf 1) as Hc.
  { destruct Hle as [Hlt| ->]; [|by right]. left. by apply t1_cdf_increasing. }
  rewrite t1_cdf_one in Hc. lra.
Qed.

End Quantile.

(** C1. Whatever the library, the factor of [sd / sqrt(n)] in the interval
    is [stats.t._pdf(.975, n - 1)], the density of Student's t at 0.975, and
    both bounds are NaN when [n <= 1]. For the sample [1, 3] the factor is
    about 0.163 and the interval returned is about (1.837, 2.163). *)
Theorem C1_interval_from_density :
  (∀ L xs,
     p_ci (summary L xs) =
     if 1 <? length xs then
       let h := (stats_t_pdf L 0.975 (length xs - 1) * np_std L xs 1
                 / Np.sqrt (Np.of_int (length xs)))%float in
       ((h * (-1) + np_mean L xs)%float, (h * 1 + np_mean L xs)%float)
     else (Np.NaN, Np.NaN)) ∧
  stats_t_pdf (lib_with 0.98 0.6) 0.975 1 = 0.16318353665301669%float ∧
  p_m_sd (summary (lib_with 0.98 0.6) [1; 3]%float)
    = (2, 1.4142135623730951)%float ∧
  p_ci (summary (lib_with 0.98 0.6) [1; 3]%float)
    = (1.8368164633469832, 2.1631835366530168)%float.
Proof. split; [apply summary_ci|]. vm_compute. done. Qed.

(** ** The caller's array *)

Lemma concat_singletons {A} (l : list A) : concat (map (λ v, [v]) l) = l.
Proof. induction l as [|v l IH]; [done|]. simpl. by rewrite IH. Qed.

Lemma view_base_reshape a : view_base a (reshape a) = a.
Proof. destruct a as [buf|c rs]; simpl; [|done]. by rewrite concat_singletons. Qed.

Lemma view_base_mask m a :
  view_base a (mask_missing m (reshape a)) = mask_array m a.
Proof.
  destruct a as [buf|c rs]; simpl; [|done].
  rewrite map_map. simpl.
  by rewrite <- (map_map (mask_cell m) (λ v, [v])), concat_singletons.
Qed.

(** C5, as the code has it. After a call the caller's [data] object is what
    it was, unless it is an ndarray and [missing] is a number other than
    NaN: then every cell equal to [missing] has been overwritten with NaN
    in the caller's array, and the other cells are what they were. *)
Theorem C5_caller_data_after L h data missing labels0 alpha :
  data_after (statdesc L h data missing labels0 alpha) =
  match data, numeric_sentinel missing with
  | Nd a, Some m => Nd (mask_array m a)
  | _, _ => data
  end.
Proof.
  unfold statdesc. destruct (asarray data) as [e|a] eqn:Ha; simpl.
  - by destruct data as [a'|xs|rs]; [|destruct (numeric_sentinel missing)..].
  - destruct data as [a'|xs|rs]; simpl; try done.
    simpl in Ha. injection Ha as ->. unfold normalize.
    destruct (numeric_sentinel missing) as [m|].
    + by rewrite view_base_mask.
    + by rewrite view_base_reshape.
Qed.

(** C5 fails as stated: called with the sentinel [-999], the caller's array
    [coded_array] is not what it was. *)
Lemma C5_counterexample :
  data_after (statdesc (lib_with 0.98 0.6) fresh (Nd coded_array)
                (MissingNum (-999)%float) (Some ["a"; "b"]) 0.05%float)
  ≠ Nd coded_array.
Proof.
  intros H.
  apply (f_equal (λ d, match d with
                       | Nd (Rank2 _ ((v :: _) :: _)) => Np.isnan v
                       | _ => false
                       end)) in H.
  vm_compute in H. discriminate H.
Qed.

(** ** The default list of labels *)

(** C10. In a call that omits [labels], a column that is not empty and has
    no usable label when its turn comes gets the label [str(i+1)] in the
    default list; the list bound to [labels] in the next call that omits
    the argument is that same list, as the first call left it. *)
Theorem C10_default_labels_shared L h data missing alpha a i :
  asarray data = inr a →
  let t := normalize a missing in
  let r1 := statdesc L h data missing None alpha in
  i < shape1 t → clean_len t i ≠ 0 →
  has_label
    (labels (locals_at L t
               (init_locals (shape1 t) (default_labels h) (stdout h)) i))
    i = false →
  default_labels (heap_after r1) = labels_after r1 ∧
  bound_labels (heap_after r1) None = labels_after r1 ∧
  str (i + 1) ∈ bound_labels (heap_after r1) None.
Proof.
  intros Ha t r1 Hi Hne Hl. subst t r1.
  assert (default_labels (heap_after (statdesc L h data missing None alpha)) =
          labels_after (statdesc L h data missing None alpha)) as Heq.
  { by rewrite (statdesc_default_labels _ _ _ _ _ _ _ Ha),
         (statdesc_labels_after _ _ _ _ _ _ _ Ha). }
  split; [done|]. unfold bound_labels at 1 2. simpl. split; [done|].
  rewrite Heq. by apply (synthesized_label_stays _ _ _ _ _ _ _ Ha).
Qed.

Lemma C10_witness :
  let r1 := statdesc_default (lib_with 0.98 0.6) fresh two_full_columns in
  default_labels (heap_after r1) = labels_after r1 ∧
  bound_labels (heap_after r1) None = labels_after r1 ∧
  str 2 ∈ bound_labels (heap_after r1) None.
Proof.
  apply (C10_default_labels_shared (lib_with 0.98 0.6) fresh two_full_columns
           (MissingStr "NaN") 0.05%float
           (Rank2 2 [[1; 4]; [2; 4]; [3; 7]]%float) 1).
  - reflexivity.
  - vm_compute; lia.
  - vm_compute; lia.
  - reflexivity.
Defined.

(** The second call sees what the first one left: alone, the call on
    [first_column_missing] raises; after a call on [two_full_columns] it
    finds the labels ["1"] and ["2"] in the default list and returns. *)
Lemma default_labels_observed L :
  let r1 := statdesc_default L fresh two_full_columns in
  default_labels (heap_after r1) = ["1"; "2"] ∧
  outcome (statdesc_default L fresh first_column_missing) = inl IndexError ∧
  ∃ res, outcome (statdesc_default L (heap_after r1) first_column_missing)
         = inr res.
Proof.
  destruct L. split; [by vm_compute|]. split; [by vm_compute|].
  eexists. vm_compute. reflexivity.
Qed.

(** * Further properties *)

(** ** What [statprint] prints *)

Lemma emits_succeeds m ls : emits m ls → succeeds m.
Proof. intros H out. exists (out ++ ls). apply H. Qed.

Lemma emits_print l : emits (print l) [l].
Proof. by intros out. Qed.

Lemma emits_ret : emits (mret tt) [].
Proof. intros out. unfold mret, io_ret. by rewrite app_nil_r. Qed.

Lemma emits_seq (m k : io unit) la lb :
  emits m la → emits k lb → emits (m ;; k) (la ++ lb).
Proof.
  intros Hm Hk out. unfold mbind, io_bind. rewrite Hm, Hk.
  by rewrite <- app_assoc.
Qed.

Lemma emits_print_row {A} (f : string → A → line) labels0 (arr : list A) i lab r :
  labels0 !! i = Some lab → arr !! i = Some r →
  emits (print_row f labels0 arr i) [f lab r].
Proof.
  intros Hl Hr out. unfold print_row, item, mbind, io_bind.
  by rewrite Hl, Hr.
Qed.

Lemma emits_rows_from {A} (f : string → A → line) labels0 (arr : list A) n s :
  s + n ≤ length labels0 → s + n ≤ length arr →
  emits (for_in (seq s n) (print_row f labels0 arr))
        (zip_with f (take n (drop s labels0)) (take n (drop s arr))).
Proof.
  revert s. induction n as [|n IH]; intros s Hl Ha; [apply emits_ret|].
  destruct (lookup_lt_is_Some_2 labels0 s) as [lab Hlab]; [lia|].
  destruct (lookup_lt_is_Some_2 arr s) as [r Hr]; [lia|].
  rewrite (drop_S _ _ _ Hlab), (drop_S _ _ _ Hr). simpl.
  apply (emits_seq _ _ [f lab r]).
  - by apply emits_print_row.
  - apply IH; lia.
Qed.

Lemma emits_table {A} (f : string → A → line) labels0 (arr : list A) n :
  n ≤ length labels0 → n ≤ length arr →
  emits (print_table f labels0 arr n) (table_lines f labels0 arr n).
Proof. intros Hl Ha. by apply (emits_rows_from f labels0 arr n 0). Qed.

Lemma print_table_raises_short {A} (f : string → A → line) labels0 (arr : list A) n :
  ¬ (n ≤ length labels0 ∧ n ≤ length arr) →
  raises IndexError (print_table f labels0 arr n).
Proof.
  intros Hshort. apply raises_for_in.
  - intros i _.
    destruct (decide (i < length labels0 ∧ i < length arr)) as [[??]|?];
      [left; by apply print_row_succeeds | right; by apply print_row_raises].
  - exists (length labels0 `min` length arr). split; [apply elem_of_seq; lia|].
    apply print_row_raises. lia.
Qed.

Section Report.

Context (m_sd0 ci0 min_max0 : list (float * float))
  (quartiles0 : list (float * float * float))
  (normality0 eq_var0 : list (float * float)) (labels0 : list string)
  (alpha : float) (nrow ncol nmiss0 nx : nat).

#[local] Abbreviation report :=
  (statprint m_sd0 ci0 min_max0 quartiles0 normality0 eq_var0 labels0 alpha
     nrow ncol nmiss0 nx).
#[local] Abbreviation ready :=
  (printable m_sd0 ci0 min_max0 quartiles0 normality0 eq_var0 labels0 ncol nx).

Lemma emits_test_lines :
  (1 < nx → 0 < length eq_var0) →
  emits (if 1 <? nx then
           (if all_normal normality0 alpha
            then print (Text "Barlett's test for equality of variances")
            else print (Text "Levene's test for equality of variances")) ;;
           print (Fmt "%26s %15s" ["t statistic"; "p value"] []) ;;
           print rule ;;
           (r ← item eq_var0 0;
            print (Fmt "%26f %15f" [] [r.1; r.2])) ;;
           print rule
         else mret tt)
        (test_lines normality0 eq_var0 alpha nx).
Proof.
  intros Heq. unfold test_lines.
  destruct (Nat.ltb_spec 1 nx) as [Hnx|Hnx]; [|apply emits_ret].
  destruct (lookup_lt_is_Some_2 eq_var0 0 (Heq Hnx)) as [r Hr]. rewrite Hr.
  apply (emits_seq _ _ [_]).
  { unfold test_heading. destruct (all_normal _ _); apply emits_print. }
  apply (emits_seq _ _ [_]); [apply emits_print|].
  apply (emits_seq _ _ [_]); [apply emits_print|].
  apply (emits_seq _ _ [_]); [|apply emits_print].
  intros out. unfold item, mbind, io_bind. by rewrite Hr.
Qed.

Lemma statprint_emits :
  ready →
  emits report
    (report_lines m_sd0 ci0 min_max0 quartiles0 normality0 eq_var0 labels0
       alpha ncol nx).
Proof.
  intros (Hl & H1 & H2 & H3 & H4 & H5 & Heq). unfold statprint, report_lines.
  repeat (apply (emits_seq _ _ [_]); [apply emits_print|]).
  apply emits_seq; [by apply emits_table|].
  repeat (apply (emits_seq _ _ [_]); [apply emits_print|]).
  apply emits_seq; [by apply emits_table|].
  repeat (apply (emits_seq _ _ [_]); [apply emits_print|]).
  apply emits_seq; [by apply emits_table|].
  repeat (apply (emits_seq _ _ [_]); [apply emits_print|]).
  apply emits_seq; [by apply emits_table|].
  repeat (apply (emits_seq _ _ [_]); [apply emits_print|]).
  apply emits_seq; [by apply emits_table|].
  apply (emits_seq _ _ [_]); [apply emits_print|].
  by apply emits_test_lines.
Qed.

Lemma statprint_raises_unready : ¬ ready → raises IndexError report.
Proof.
  intros Hno. unfold statprint.
  repeat (apply raises_later; [apply succeeds_print|]).
  destruct (decide (ncol ≤ length labels0 ∧ ncol ≤ length m_sd0)) as [[Hl H1]|?];
    [|by apply raises_first, print_table_raises_short].
  apply raises_later; [by apply print_table_succeeds|].
  repeat (apply raises_later; [apply succeeds_print|]).
  destruct (decide (ncol ≤ length ci0)) as [H2|?];
    [|apply raises_first, print_table_raises_short; lia].
  apply raises_later; [by apply print_table_succeeds|].
  repeat (apply raises_later; [apply succeeds_print|]).
  destruct (decide (ncol ≤ length min_max0)) as [H3|?];
    [|apply raises_first, print_table_raises_short; lia].
  apply raises_later; [by apply print_table_succeeds|].
  repeat (apply raises_later; [apply succeeds_print|]).
  destruct (decide (ncol ≤ length quartiles0)) as [H4|?];
    [|apply raises_first, print_table_raises_short; lia].
  apply raises_later; [by apply print_table_succeeds|].
  repeat (apply raises_later; [apply succeeds_print|]).
  destruct (decide (ncol ≤ length normality0)) as [H5|?];
    [|apply raises_first, print_table_raises_short; lia].
  apply raises_later; [by apply print_table_succeeds|].
  apply raises_later; [apply succeeds_print|].
  destruct (Nat.ltb_spec 1 nx) as [Hnx|Hnx].
  - assert (eq_var0 !! 0 = None) as Hnone.
    { apply lookup_ge_None. unfold printable in Hno.
      destruct (decide (0 < length eq_var0)); [|lia]. exfalso. apply Hno.
      repeat split; done. }
    apply raises_later.
    { destruct (all_normal _ _); apply succeeds_print. }
    repeat (apply raises_later; [apply succeeds_print|]).
    apply raises_first. intros out. exists out.
    unfold item, mbind, io_bind. by rewrite Hnone.
  - exfalso. apply Hno. repeat split; try done. lia.
Qed.

End Report.

Lemma appends_print l : appends (print l).
Proof. intros out. by exists [l]. Qed.

Lemma appends_ret {A} (a : A) : appends (mret a).
Proof. intros out. exists []. unfold mret, io_ret. simpl. by rewrite app_nil_r. Qed.

Lemma appends_item {A} (l : list A) i : appends (item l i).
Proof.
  intros out. exists []. unfold item.
  destruct (l !! i); simpl; by rewrite app_nil_r.
Qed.

Lemma appends_bind {A B} (m : io A) (k : A → io B) :
  appends m → (∀ a, appends (k a)) → appends (m ≫= k).
Proof.
  intros Hm Hk out. destruct (Hm out) as [la Ha].
  unfold mbind, io_bind. destruct (m out) as [out1 [e|a]]; simpl in *.
  - by exists la.
  - destruct (Hk a out1) as [lb Hb]. exists (la ++ lb).
    by rewrite Hb, Ha, <- app_assoc.
Qed.

Lemma appends_for_in js body :
  (∀ i, appends (body i)) → appends (for_in js body).
Proof.
  intros Hb. induction js as [|i js IH]; simpl; [apply appends_ret|].
  by apply appends_bind.
Qed.

Lemma appends_table {A} (f : string → A → line) labels0 (arr : list A) n :
  appends (print_table f labels0 arr n).
Proof.
  apply appends_for_in. intros i. unfold print_row.
  apply appends_bind; [apply appends_item|]. intros lab.
  apply appends_bind; [apply appends_item|]. intros r. apply appends_print.
Qed.

Lemma statprint_appends m_sd0 ci0 min_max0 quartiles0 normality0 eq_var0
    labels0 alpha nrow ncol nmiss0 nx :
  appends (statprint m_sd0 ci0 min_max0 quartiles0 normality0 eq_var0 labels0
             alpha nrow ncol nmiss0 nx).
Proof.
  unfold statprint.
  repeat first
    [ apply appends_bind; [|intros _]
    | apply appends_print
    | apply appends_table
    | apply appends_item ].
  destruct (1 <? nx); [|apply appends_ret].
  repeat first
    [ apply appends_bind; [|intros ?]
    | apply appends_print
    | apply appends_item
    | by destruct (all_normal _ _); apply appends_print ].
Qed.

(** X6. [statprint] completes exactly when it finds a label and a row of
    each of the five arrays for every column, and a row of [eq_var] when
    [nx > 1]; it then prints the report after what was printed before.
    Otherwise it raises [IndexError], and what was printed before is still
    there. *)
Theorem X6_statprint_completes_iff m_sd0 ci0 min_max0 quartiles0 normality0
    eq_var0 labels0 alpha nrow ncol nmiss0 nx out :
  let printed :=
    statprint m_sd0 ci0 min_max0 quartiles0 normality0 eq_var0 labels0 alpha
      nrow ncol nmiss0 nx out in
  if decide (printable m_sd0 ci0 min_max0 quartiles0 normality0 eq_var0
               labels0 ncol nx)
  then printed =
       (out ++ report_lines m_sd0 ci0 min_max0 quartiles0 normality0 eq_var0
                 labels0 alpha ncol nx, inr tt)
  else printed.2 = inl IndexError ∧ ∃ added, printed.1 = out ++ added.
Proof.
  simpl. case_decide as Hp.
  - by apply statprint_emits.
  - split; [|apply statprint_appends].
    destruct (statprint_raises_unready m_sd0 ci0 min_max0 quartiles0 normality0
                eq_var0 labels0 alpha nrow ncol nmiss0 nx Hp out) as [out' ->].
    done.
Qed.

(** ** Returning or raising *)

Section Outcome.

Context (L : Lib) (h : heap) (data : array_like) (missing : missing_arg)
  (labels0 : option (list string)) (alpha : float).
Context (a : ndarray) (Ha : asarray data = inr a).

#[local] Abbreviation tbl := (normalize a missing).
#[local] Abbreviation st :=
  (statdesc_core L tbl (bound_labels h labels0) (stdout h)).
#[local] Abbreviation run0 := (statdesc L h data missing labels0 alpha).

Lemma core_printable :
  shape1 tbl ≤ length (labels st) →
  printable (m_sd st) (ci st) (min_max st) (quartiles st) (normality st)
    (eq_var st) (labels st) (shape1 tbl) (length (x st)).
Proof.
  intros Hl.
  destruct (core_shape_ok L tbl (bound_labels h labels0) (stdout h))
    as (H1 & H2 & H3 & H4 & H5).
  unfold printable. repeat split; try lia.
  intros _. rewrite core_eq_var. case_decide; simpl; lia.
Qed.

Lemma statdesc_stdout_returned :
  shape1 tbl ≤ length (labels st) →
  stdout (heap_after run0) =
  out st ++ report_lines (m_sd st) (ci st) (min_max st) (quartiles st)
              (normality st) (eq_var st) (labels st) alpha (shape1 tbl)
              (length (x st)).
Proof using Ha.
  intros Hl. unfold statdesc. rewrite Ha. simpl.
  by rewrite (statprint_emits _ _ _ _ _ _ _ _ _ _ _ _ (core_printable Hl)).
Qed.

Lemma statdesc_stdout_appends :
  ∃ added, stdout (heap_after run0) = out st ++ added.
Proof using Ha.
  unfold statdesc. rewrite Ha. simpl. apply statprint_appends.
Qed.

End Outcome.



(** ** The skip notices *)

Lemma string_length_app s1 s2 :
  String.length (s1 +:+ s2) = String.length s1 + String.length s2.
Proof. induction s1 as [|c s1 IH]; simpl; [done|]. by rewrite IH. Qed.

Lemma string_app_inj_r s s1 s2 : s1 +:+ s = s2 +:+ s → s1 = s2.
Proof.
  revert s2. induction s1 as [|c1 s1 IH]; intros [|c2 s2] H; simpl in H.
  - done.
  - apply (f_equal String.length) in H.
    rewrite !string_length_app in H. simpl in H. lia.
  - apply (f_equal String.length) in H.
    rewrite !string_length_app in H. simpl in H. lia.
  - injection H as -> H. f_equal. by apply IH.
Qed.

#[local] Instance skip_notice_inj : Inj (=) (=) skip_notice.
Proof.
  intros i j H. unfold skip_notice in H. injection H as H.
  change ("" +:+ ?s) with s in H.
  apply string_app_inj_r in H. apply (inj pretty) in H. lia.
Qed.

Lemma table_lines_no_notice {A} (f : string → A → line) labels0 (arr : list A) n i :
  (∀ lab r, f lab r ≠ skip_notice i) →
  skip_notice i ∉ table_lines f labels0 arr n.
Proof.
  intros Hf Hin. unfold table_lines in Hin.
  apply elem_of_zip_with in Hin as (lab & r & Heq & _). by eapply Hf.
Qed.

Lemma test_lines_no_notice normality0 eq_var0 alpha nx i :
  skip_notice i ∉ test_lines normality0 eq_var0 alpha nx.
Proof.
  unfold test_lines, test_heading, rule. intros Hin.
  destruct (1 <? nx); [|by apply elem_of_nil in Hin].
  destruct (eq_var0 !! 0), (all_normal _ _); simpl in Hin;
    repeat (apply elem_of_cons in Hin as [Hin|Hin]; [discriminate Hin|]);
    by apply elem_of_nil in Hin.
Qed.

Lemma report_no_notice m_sd0 ci0 min_max0 quartiles0 normality0 eq_var0
    labels0 alpha ncol nx i :
  skip_notice i ∉ report_lines m_sd0 ci0 min_max0 quartiles0 normality0
                    eq_var0 labels0 alpha ncol nx.
Proof.
  unfold report_lines, rule. intros Hin.
  repeat first
    [ apply elem_of_cons in Hin as [Hin|Hin]; [discriminate Hin|]
    | apply elem_of_app in Hin as [Hin|Hin];
      [first [ by apply elem_of_nil in Hin
             | by apply table_lines_no_notice in Hin ]|] ].
  by apply test_lines_no_notice in Hin.
Qed.

(** X5. When a call returns, what it has printed is, after what was printed
    before: the skip notice of every column that holds only missing values,
    in column order and once each, then the report of [statprint], in which
    no skip notice occurs. *)
Theorem X5_skip_notices_once L h data missing labels0 alpha a res :
  asarray data = inr a →
  let t := normalize a missing in
  let r := statdesc L h data missing labels0 alpha in
  outcome r = inr res →
  let notices :=
    map skip_notice (filter (λ i, clean_len t i = 0) (seq 0 (shape1 t))) in
  NoDup notices ∧
  ∃ report,
    stdout (heap_after r) = stdout h ++ notices ++ report ∧
    ∀ i, skip_notice i ∉ report.
Proof.
  intros Ha t r Hres notices. subst t r notices. split.
  - apply (NoDup_fmap_2 skip_notice), NoDup_filter, NoDup_seq.
  - apply (statdesc_returned _ _ _ _ _ _ _ Ha) in Hres as [Hl _].
    eexists. split.
    + rewrite (statdesc_stdout_returned _ _ _ _ _ _ _ Ha Hl), core_out.
      by rewrite <- app_assoc.
    + intros i. apply report_no_notice.
Qed.

Lemma X5_witness :
  ∃ report,
    stdout (heap_after (statdesc (lib_with 0.98 0.6) fresh sample_data
                          (MissingStr "NaN") (Some sample_labels) 0.05%float))
    = [Text "Skipping column 1, only missing data"] ++ report ∧
    ∀ i, skip_notice i ∉ report.
Proof.
  edestruct (X5_skip_notices_once (lib_with 0.98 0.6) fresh sample_data
               (MissingStr "NaN") (Some sample_labels) 0.05%float sample_array)
    as [_ (report & Hout & Hno)]; [reflexivity | vm_compute; reflexivity |].
  exists report. split; [exact Hout | exact Hno].
Defined.

(** ** More on labels *)

Lemma handle_labels_lookup_keeps labels0 i k s :
  labels0 !! k = Some s → truthy s = true →
  handle_labels labels0 i !! k = Some s.
Proof.
  intros Hk Hs. unfold handle_labels.
  destruct (has_label labels0 i) eqn:Hl; [done|].
  destruct (Nat.ltb_spec i (length labels0)) as [Hi|Hi].
  - destruct (decide (i = k)) as [->|Hne].
    + assert (has_label labels0 k = true) by (apply has_label_spec; eauto).
      congruence.
    + by rewrite list_lookup_insert_ne.
  - by apply lookup_app_l_Some.
Qed.

Lemma handle_labels_rounds_lookup_keep js labels0 k s :
  labels0 !! k = Some s → truthy s = true →
  foldl handle_labels labels0 js !! k = Some s.
Proof.
  revert labels0. induction js as [|i js IH]; intros labels0 Hk Hs; [done|].
  simpl. apply IH; [|done]. by apply handle_labels_lookup_keeps.
Qed.

Section LabelCount.

Context (P : nat → Prop) `{!∀ i, Decision (P i)}.

Lemma labels_length_upper n s labels0 :
  length (foldl handle_labels labels0 (filter P (seq s n)))
  ≤ length labels0 `max` (s + n).
Proof.
  revert s labels0. induction n as [|n IH]; intros s labels0; simpl; [lia|].
  rewrite filter_cons. case_decide; simpl.
  - etrans; [apply IH|].
    assert (length (handle_labels labels0 s) ≤ length labels0 `max` S s); [|lia].
    unfold handle_labels. destruct (has_label labels0 s); [lia|].
    destruct (Nat.ltb_spec s (length labels0)).
    + rewrite length_insert. lia.
    + rewrite length_app. simpl. lia.
  - etrans; [apply IH|]. lia.
Qed.

Lemma labels_length_lower n s labels0 m :
  m ≤ s → m ≤ length labels0 →
  m + length (filter P (seq s n))
  ≤ length (foldl handle_labels labels0 (filter P (seq s n))).
Proof.
  revert s labels0 m. induction n as [|n IH]; intros s labels0 m Hs Hm; simpl;
    [lia|].
  rewrite filter_cons. case_decide; simpl.
  - etrans; [|apply (IH (S s) _ (S m))]; [lia|lia|].
    unfold handle_labels.
    destruct (has_label labels0 s) eqn:Hl.
    + apply has_label_spec in Hl as (lab & Hlab%lookup_lt_Some & _). lia.
    + destruct (Nat.ltb_spec s (length labels0)).
      * rewrite length_insert. lia.
      * rewrite length_app. simpl. lia.
  - apply IH; lia.
Qed.



End LabelCount.



(** X9. A non-empty label that the list holds when the call starts is still
    there, at the same position, when the call ends. *)
Theorem X9_usable_labels_stay_in_place L h data missing labels0 alpha a k s :
  asarray data = inr a →
  bound_labels h labels0 !! k = Some s → truthy s = true →
  labels_after (statdesc L h data missing labels0 alpha) !! k = Some s.
Proof.
  intros Ha Hk Hs. rewrite (labels_after_rounds _ _ _ _ _ _ _ Ha).
  by apply handle_labels_rounds_lookup_keep.
Qed.

Lemma X9_witness :
  labels_after (statdesc (lib_with 0.98 0.6) fresh sample_data
                  (MissingStr "NaN") (Some sample_labels) 0.05%float) !! 2
  = Some "c".
Proof.
  apply (X9_usable_labels_stay_in_place (lib_with 0.98 0.6) fresh sample_data
           (MissingStr "NaN") (Some sample_labels) 0.05%float sample_array);
    reflexivity.
Defined.

(** X10. The list of labels never shrinks; after the call it holds at least
    as many entries as there are columns that are not empty, and no more
    than the larger of its length at entry and the number of columns. *)
Theorem X10_labels_length_bounds L h data missing labels0 alpha a :
  asarray data = inr a →
  let t := normalize a missing in
  let n := length (labels_after (statdesc L h data missing labels0 alpha)) in
  length (bound_labels h labels0) ≤ n ∧
  count_columns t (λ i, clean_len t i ≠ 0) ≤ n ∧
  n ≤ length (bound_labels h labels0) `max` shape1 t.
Proof.
  intros Ha t n. subst t n. rewrite (labels_after_rounds _ _ _ _ _ _ _ Ha).
  split; [apply handle_labels_rounds_length|]. split.
  - apply labels_length_lower with (m := 0); lia.
  - apply labels_length_upper.
Qed.

Lemma X10_witness :
  let n := length (labels_after (statdesc (lib_with 0.98 0.6) fresh sample_data
                                   (MissingStr "NaN") (Some ["a"]) 0.05%float)) in
  1 ≤ n ∧ 3 ≤ n ∧ n ≤ 4.
Proof.
  exact (X10_labels_length_bounds (lib_with 0.98 0.6) fresh sample_data
           (MissingStr "NaN") (Some ["a"]) 0.05%float sample_array eq_refl).
Defined.

Lemma label_of_truthy labels0 i : truthy (label_of labels0 i) = true.
Proof.
  unfold label_of. destruct (labels0 !! i) as [s|]; [|apply str_truthy].
  destruct (truthy s) eqn:Hs; [done|apply str_truthy].
Qed.

Lemma handled_labels_fixed labels0 k :
  let after := map (label_of labels0) (seq 0 k) ++ drop k labels0 in
  map (label_of after) (seq 0 k) ++ drop k after = after.
Proof.
  simpl. set (done_ := map (label_of labels0) (seq 0 k)).
  assert (length done_ = k) as Hlen.
  { unfold done_. by rewrite length_map, length_seq. }
  rewrite drop_app_length' by done. f_equal.
  apply list_eq. intros i. unfold done_. rewrite !list_lookup_fmap.
  destruct (seq 0 k !! i) as [j|] eqn:Hj; [|done]. simpl. f_equal.
  apply lookup_seq in Hj as [-> Hi]. simpl.
  unfold label_of at 1.
  rewrite lookup_app_l by (rewrite length_map, length_seq; lia).
  rewrite list_lookup_fmap, lookup_seq_lt by done. simpl.
  by rewrite label_of_truthy.
Qed.

(** X11. When no column holds only missing values, calling again on the same
    data with the list of labels that a call has left changes nothing in
    the list. *)
Theorem X11_labels_settle L h data missing labels0 alpha a h' alpha' :
  asarray data = inr a →
  let t := normalize a missing in
  (∀ i, i < shape1 t → clean_len t i ≠ 0) →
  let after := labels_after (statdesc L h data missing labels0 alpha) in
  labels_after (statdesc L h' data missing (Some after) alpha') = after.
Proof.
  intros Ha t Hall after. subst t after.
  destruct (labels_when_no_column_is_empty L h data missing labels0 alpha a
              Ha Hall) as [-> _].
  destruct (labels_when_no_column_is_empty L h' data missing
              (Some (map (label_of (bound_labels h labels0))
                       (seq 0 (shape1 (normalize a missing))) ++
                     drop (shape1 (normalize a missing))
                       (bound_labels h labels0)))
              alpha' a Ha Hall) as [-> _].
  apply handled_labels_fixed.
Qed.

Lemma X11_witness :
  let after := labels_after (statdesc (lib_with 0.98 0.6) fresh two_full_columns
                               (MissingStr "NaN") (Some [""]) 0.05%float) in
  labels_after (statdesc (lib_with 0.98 0.6) fresh two_full_columns
                  (MissingStr "NaN") (Some after) 0.01%float) = after.
Proof.
  apply (X11_labels_settle (lib_with 0.98 0.6) fresh two_full_columns
           (MissingStr "NaN") (Some [""]) 0.05%float
           (Rank2 2 [[1; 4]; [2; 4]; [3; 7]]%float)).
  - reflexivity.
  - intros i Hi. change (i < 2) in Hi.
    assert (i = 0 ∨ i = 1) as [-> | ->] by lia; vm_compute; lia.
Defined.

(** ** Rows and columns *)

(** X4. When a call returns, the row of a column that is not empty holds, in
    each of the five arrays, what [summary] returns for the values of that
    column that are not missing, whatever the other columns hold. *)
Theorem X4_row_is_summary_of_clean_column L h data missing labels0 alpha a res j :
  asarray data = inr a →
  outcome (statdesc L h data missing labels0 alpha) = inr res →
  let t := normalize a missing in
  j < shape1 t → clean_len t j ≠ 0 →
  let p := summary L (clean_column t j) in
  ret_m_sd res !! j = Some (p_m_sd p) ∧
  ret_ci res !! j = Some (p_ci p) ∧
  ret_min_max res !! j = Some (p_min_max p) ∧
  ret_quartiles res !! j = Some (p_quartiles p) ∧
  ret_normality res !! j = Some (p_normality p).
Proof.
  intros Ha Hres t Hj Hne p. subst t p.
  pose proof (returned_row _ _ _ _ _ _ _ Ha _ j Hres Hj) as Hrow.
  unfold column_profile in Hrow. rewrite decide_False in Hrow by done.
  injection Hrow as H1 H2 H3 H4 H5. done.
Qed.

Lemma X4_witness :
  ∃ res,
    outcome (statdesc (lib_with 0.98 0.6) fresh sample_data (MissingStr "NaN")
               (Some sample_labels) 0.05%float) = inr res ∧
    ret_min_max res !! 2 = Some (4, 7)%float ∧
    ret_quartiles res !! 2 = Some (4, 4, 5.5)%float.
Proof.
  eexists. split; [vm_compute; reflexivity|].
  match goal with |- ret_min_max ?r !! _ = _ ∧ _ =>
    destruct (X4_row_is_summary_of_clean_column (lib_with 0.98 0.6) fresh
                sample_data (MissingStr "NaN") (Some sample_labels) 0.05%float
                sample_array r 2) as (_ & _ & H3 & H4 & _);
      [reflexivity | vm_compute; reflexivity | vm_compute; lia
      | vm_compute; lia |]
  end.
  split; [exact H3 | exact H4].
Defined.

(** X1. Started at position [i], the loop that pops the empty arrays leaves
    the first [i] arrays as they are and, from position [i] on, keeps
    exactly the arrays that are not empty, in their order. *)
Theorem X1_remove_empty_keeps_order i (xs : list (list float)) :
  remove_empty i xs = take i xs ++ filter (λ xi, length xi ≠ 0) (drop i xs).
Proof. apply remove_empty_from. Qed.

(** ** The missing-value sentinel *)

Lemma eqb_NaN_l m : (Np.NaN =? m)%float = false.
Proof. rewrite FloatAxioms.eqb_spec. reflexivity. Qed.

Lemma mask_cell_NaN m : mask_cell m Np.NaN = Np.NaN.
Proof. unfold mask_cell. by rewrite eqb_NaN_l. Qed.

Lemma column_mask_missing m t i :
  column (mask_missing m t) i = map (mask_cell m) (column t i).
Proof.
  unfold column, mask_missing. simpl. rewrite !map_map.
  apply map_ext. intros r.
  rewrite <- (mask_cell_NaN m) at 1. apply map_nth.
Qed.

Lemma filter_masked m (l : list float) :
  filter (λ v, Np.isnan v = false) (map (mask_cell m) l) = filter (kept m) l.
Proof.
  induction l as [|v l IH]; [done|]. rewrite map_cons.
  destruct (decide (kept m v)) as [[Hn Hv]|Hno].
  - rewrite (filter_cons_True (kept m)) by done.
    unfold mask_cell at 1. rewrite Hv.
    by rewrite filter_cons_True, IH by done.
  - rewrite (filter_cons_False (kept m)) by done.
    rewrite filter_cons_False; [done|].
    unfold mask_cell. destruct (v =? m)%float eqn:Hv; [by vm_compute|].
    intros Hn. by apply Hno.
Qed.

(** X3. When [missing] is a number other than NaN, the values kept of a
    column are those that are neither NaN nor equal to [missing], in their
    order. *)
Theorem X3_sentinel_cells_are_dropped a missing m i :
  numeric_sentinel missing = Some m →
  clean_column (normalize a missing) i = filter (kept m) (column (reshape a) i).
Proof.
  intros Hm. unfold normalize, clean_column. rewrite Hm.
  by rewrite column_mask_missing, filter_masked.
Qed.

Lemma X3_witness :
  clean_column (normalize coded_array (MissingNum (-999)%float)) 0
  = filter (kept (-999)%float) [-999; 4; 5]%float.
Proof.
  apply (X3_sentinel_cells_are_dropped coded_array (MissingNum (-999)%float)
           (-999)%float 0).
  reflexivity.
Defined.

(** ** The count of missing values *)

Lemma sum_list_map_add {A} (f g : A → nat) (l : list A) :
  sum_list (map (λ i, f i + g i) l) = sum_list (map f l) + sum_list (map g l).
Proof. induction l as [|i l IH]; simpl; lia. Qed.

Lemma sum_list_map_zero {A} (l : list A) : sum_list (map (λ _, 0) l) = 0.
Proof. induction l as [|i l IH]; simpl; lia. Qed.

Lemma filter_isnan_split (l : list float) :
  length (filter (λ v, Np.isnan v = false) l)
  + length (filter (λ v, Np.isnan v = true) l) = length l.
Proof.
  induction l as [|v l IH]; [done|]. rewrite !filter_cons.
  destruct (Np.isnan v) eqn:Hv; repeat case_decide; try done; simpl; lia.
Qed.

Lemma column_length t i : length (column t i) = shape0 t.
Proof. unfold column, shape0. by rewrite length_map. Qed.

Lemma column_missing t i :
  shape0 t - clean_len t i = length (filter (λ v, Np.isnan v = true) (column t i)).
Proof.
  unfold clean_len, clean_column.
  pose proof (filter_isnan_split (column t i)) as H.
  rewrite column_length in H. lia.
Qed.

Lemma row_nan_count (r : list float) :
  sum_list (map (λ i, length (filter (λ v, Np.isnan v = true) [nth i r Np.NaN]))
              (seq 0 (length r)))
  = length (filter (λ v, Np.isnan v = true) r).
Proof.
  induction r as [|v r IH]; [done|].
  simpl length. rewrite <- cons_seq, <- fmap_S_seq. simpl map.
  change (S <$> seq 0 (length r)) with (map S (seq 0 (length r))).
  rewrite map_map. simpl sum_list. simpl nth. rewrite IH.
  change (v :: r) with ([v] ++ r). by rewrite filter_app, length_app.
Qed.

Lemma table_nan_count c (rs : list (list float)) :
  Forall (λ r, length r = c) rs →
  sum_list (map (λ i, length (filter (λ v, Np.isnan v = true)
                                (map (λ r, nth i r Np.NaN) rs)))
              (seq 0 c))
  = length (filter (λ v, Np.isnan v = true) (concat rs)).
Proof.
  induction 1 as [|r rs Hr _ IH]; simpl.
  - apply sum_list_map_zero.
  - rewrite filter_app, length_app, <- IH, <- (row_nan_count r), Hr.
    rewrite <- sum_list_map_add. f_equal. apply map_ext. intros i.
    change (nth i r Np.NaN :: ?l) with ([nth i r Np.NaN] ++ l).
    by rewrite filter_app, length_app.
Qed.

Section Missing.

Context (L : Lib) (t : table).

Lemma body_nmiss st i :
  nmiss (column_body L t st i) = nmiss st + (shape0 t - clean_len t i).
Proof. unfold column_body, clean_len. by destruct (_ =? 0). Qed.

Lemma rounds_nmiss js st :
  nmiss (foldl (column_body L t) st js) =
  nmiss st + sum_list (map (λ i, shape0 t - clean_len t i) js).
Proof.
  revert st. induction js as [|i js IH]; intros st; simpl; [lia|].
  rewrite IH, body_nmiss. lia.
Qed.

Lemma core_nmiss labels0 out0 :
  nmiss (statdesc_core L t labels0 out0) =
  sum_list (map (λ i, shape0 t - clean_len t i) (seq 0 (shape1 t))).
Proof.
  unfold statdesc_core, variance_test. destruct (_ && _); simpl;
    unfold column_loop; by rewrite rounds_nmiss.
Qed.

End Missing.

(** X2. The count of missing values that [statdesc] hands to [statprint] is
    the number of NaN cells of the table (after the replacement of
    [missing]), when every row of the table has one cell per column. *)
Theorem X2_nmiss_counts_nan_cells L t labels0 out0 :
  rectangular t →
  nmiss (statdesc_core L t labels0 out0) = nan_cells t.
Proof.
  intros Hrect. rewrite core_nmiss. unfold nan_cells.
  rewrite <- (table_nan_count (shape1 t)) by done.
  f_equal. apply map_ext. intros i. apply column_missing.
Qed.

Lemma X2_witness :
  nmiss (statdesc_core (lib_with 0.98 0.6)
           (normalize sample_array (MissingStr "NaN")) sample_labels []) = 5.
Proof.
  apply (X2_nmiss_counts_nan_cells (lib_with 0.98 0.6)
           (normalize sample_array (MissingStr "NaN")) sample_labels []).
  repeat constructor.
Defined.

(** ** A 1-D input *)

Lemma singleton_rows {A} (l : list A) v :
  length l = 1 → l !! 0 = Some v → l = [v].
Proof. destruct l as [|w [|??]]; intros Hlen Hv; simplify_eq/=; done. Qed.

Lemma column_of_reshaped xs :
  column (reshape (Rank1 xs)) 0 = xs.
Proof.
  unfold column. simpl. rewrite map_map. simpl. apply map_id.
Qed.

Lemma one_column_no_test t : shape1 t = 1 → ¬ test_guard t.
Proof.
  intros Hc [Hne _]. unfold count_columns in Hne.
  pose proof (length_filter (λ i, clean_len t i ≠ 0) (seq 0 (shape1 t))) as Hle.
  rewrite length_seq in Hle. lia.
Qed.

(** X14. A 1-D input is one variable. When [missing] is not a number and the
    call returns, each of the five arrays has the single row that [summary]
    gives for the values that are not NaN (if there is one), no test for
    equality of variances is run and [eq_var] is NaN in both fields. *)
Theorem X14_rank1_is_one_column L h data missing labels0 alpha xs res :
  asarray data = inr (Rank1 xs) →
  numeric_sentinel missing = None →
  let r := statdesc L h data missing labels0 alpha in
  outcome r = inr res →
  let values := filter (λ v, Np.isnan v = false) xs in
  length values ≠ 0 →
  let p := summary L values in
  res = Results [p_m_sd p] [p_ci p] [p_min_max p] [p_quartiles p]
          [p_normality p] [(Np.NaN, Np.NaN)] ∧
  tests_run r = [].
Proof.
  intros Ha Hm r Hres values Hne p. subst r values p.
  assert (normalize (Rank1 xs) missing = reshape (Rank1 xs)) as Ht.
  { unfold normalize. by rewrite Hm. }
  assert (clean_column (reshape (Rank1 xs)) 0
          = filter (λ v, Np.isnan v = false) xs) as Hclean.
  { unfold clean_column. by rewrite column_of_reshaped. }
  pose proof (returned_lengths _ _ _ _ _ _ _ Ha _ Hres)
    as (H1 & H2 & H3 & H4 & H5 & H6).
  pose proof (returned_row _ _ _ _ _ _ _ Ha _ 0 Hres) as Hrow.
  rewrite Ht in *. simpl shape1 in *. specialize (Hrow ltac:(lia)).
  unfold column_profile, clean_len in Hrow. rewrite Hclean in Hrow.
  rewrite decide_False in Hrow by done.
  injection Hrow as R1 R2 R3 R4 R5.
  assert (tests_run (statdesc L h data missing labels0 alpha) = []) as Hnone.
  { apply (tests_run_none _ _ _ _ _ _ _ Ha). rewrite Ht.
    by apply one_column_no_test. }
  split; [|done].
  apply (statdesc_returned _ _ _ _ _ _ _ Ha) in Hres as [_ Hres].
  pose proof (core_eq_var L (normalize (Rank1 xs) missing)
                (bound_labels h labels0) (stdout h)) as Heq.
  rewrite decide_False in Heq by (rewrite Ht; by apply one_column_no_test).
  rewrite Hres in *. simpl in *. rewrite Heq.
  by rewrite (singleton_rows _ _ H1 R1), (singleton_rows _ _ H2 R2),
       (singleton_rows _ _ H3 R3), (singleton_rows _ _ H4 R4),
       (singleton_rows _ _ H5 R5).
Qed.

Lemma X14_witness :
  ∃ res,
    outcome (statdesc_default (lib_with 0.98 0.6) fresh one_variable) = inr res ∧
    ret_m_sd res = [p_m_sd (summary (lib_with 0.98 0.6) [2; 4; 9]%float)] ∧
    ret_eq_var res = [(Np.NaN, Np.NaN)].
Proof.
  eexists. split; [vm_compute; reflexivity|].
  match goal with |- ret_m_sd ?r = _ ∧ _ =>
    destruct (X14_rank1_is_one_column (lib_with 0.98 0.6) fresh one_variable
                (MissingStr "NaN") None 0.05%float [2; nan; 4; 9]%float r)
      as [Hres _];
      [reflexivity | reflexivity | vm_compute; reflexivity | vm_compute; lia |]
  end.
  split; [exact (f_equal ret_m_sd Hres) | exact (f_equal ret_eq_var Hres)].
Defined.

(** ** The table of the test in the report *)

Lemma report_lines_end m_sd0 ci0 min_max0 quartiles0 normality0 eq_var0
    labels0 alpha ncol nx :
  report_lines m_sd0 ci0 min_max0 quartiles0 normality0 eq_var0 labels0 alpha
    ncol nx
  = report_lines m_sd0 ci0 min_max0 quartiles0 normality0 eq_var0 labels0
      alpha ncol 0
    ++ test_lines normality0 eq_var0 alpha nx.
Proof.
  unfold report_lines. change (test_lines _ _ _ 0) with (@nil line).
  rewrite app_nil_r. by rewrite <- !app_assoc.
Qed.

Section TestTable.

Context (L : Lib) (h : heap) (data : array_like) (missing : missing_arg)
  (labels0 : option (list string)) (alpha : float).
Context (a : ndarray) (Ha : asarray data = inr a).

#[local] Abbreviation tbl := (normalize a missing).
#[local] Abbreviation st :=
  (statdesc_core L tbl (bound_labels h labels0) (stdout h)).
#[local] Abbreviation run0 := (statdesc L h data missing labels0 alpha).

(** With more than one column that is not empty, a report that completes
    ends with the table of the test. *)
Lemma stdout_ends_with_test_table res :
  outcome run0 = inr res →
  1 < count_columns tbl (λ i, clean_len tbl i ≠ 0) →
  ∃ before r,
    eq_var st = [r] ∧
    stdout (heap_after run0) =
    before ++ [test_heading (normality st) alpha;
               Fmt "%26s %15s" ["t statistic"; "p value"] [];
               rule;
               Fmt "%26f %15f" [] [r.1; r.2];
               rule].
Proof using Ha.
  intros [Hl _]%(statdesc_returned _ _ _ _ _ _ _ Ha) Hnx.
  rewrite (statdesc_stdout_returned _ _ _ _ _ _ _ Ha Hl), report_lines_end.
  rewrite core_x, samples_length. unfold test_lines.
  destruct (Nat.ltb_spec 1 (count_columns tbl (λ i, clean_len tbl i ≠ 0)));
    [|lia].
  assert (∃ r, eq_var st = [r]) as [r Hr].
  { rewrite core_eq_var. case_decide; eauto. }
  rewrite Hr. eexists _, r. split; [done|].
  rewrite app_assoc. reflexivity.
Qed.

End TestTable.

(** X12. With the default [alpha = .05], when a test for equality of
    variances is run and the call returns, what is printed ends with the
    table of that test: its heading names the test that was run, and its row
    holds the statistic and the p-value that the test returned. *)
Theorem X12_report_names_the_test_run L h data missing labels0 a res :
  asarray data = inr a →
  let t := normalize a missing in
  let r := statdesc L h data missing labels0 0.05%float in
  outcome r = inr res → tests_run r ≠ [] →
  ∃ before name result,
    stdout (heap_after r) =
      before ++ [Text name;
                 Fmt "%26s %15s" ["t statistic"; "p value"] [];
                 rule;
                 Fmt "%26f %15f" [] [result.1; result.2];
                 rule] ∧
    ((tests_run r = [Bartlett (samples t)] ∧
      name = "Barlett's test for equality of variances" ∧
      result = stats_bartlett L (samples t)) ∨
     (tests_run r = [Levene (samples t) median] ∧
      name = "Levene's test for equality of variances" ∧
      result = stats_levene L (samples t) median)).
Proof.
  intros Ha t r Hres Hrun. subst t r.
  pose proof (tests_run_guard _ _ _ _ _ _ _ Ha Hrun) as Hg.
  destruct (stdout_ends_with_test_table L h data missing labels0 0.05%float a
              Ha res Hres (proj1 Hg)) as (before & r & Hr & Hout).
  rewrite Hout. rewrite core_eq_var, decide_True in Hr by done.
  rewrite (statdesc_tests_run _ _ _ _ _ _ _ Ha), core_calls.
  rewrite decide_True by done. unfold test_heading.
  destruct (all_normal _ _); injection Hr as <-;
    eexists before, _, _; (split; [reflexivity|]); [left|right]; done.
Qed.

Lemma X12_witness :
  ∃ before,
    stdout (heap_after (statdesc_default (lib_with 0.98 0.6) fresh
                          two_full_columns)) =
      before ++ [Text "Barlett's test for equality of variances";
                 Fmt "%26s %15s" ["t statistic"; "p value"] [];
                 rule;
                 Fmt "%26f %15f" [] [1.5; 0.2]%float;
                 rule].
Proof.
  assert (∃ res, outcome (statdesc_default (lib_with 0.98 0.6) fresh
                            two_full_columns) = inr res) as [res Hres].
  { eexists. vm_compute. reflexivity. }
  destruct (X12_report_names_the_test_run (lib_with 0.98 0.6) fresh
              two_full_columns (MissingStr "NaN") None
              (Rank2 2 [[1; 4]; [2; 4]; [3; 7]]%float) res)
    as (before & name & result & Hout & Hcase).
  - reflexivity.
  - exact Hres.
  - vm_compute; discriminate.
  - exists before. unfold statdesc_default. rewrite Hout.
    destruct Hcase as [(_ & -> & ->)|(Hlev & _)]; [reflexivity|].
    vm_compute in Hlev. discriminate Hlev.
Defined.

(** X13. When more than one column is not empty but fewer than two columns
    hold more than two values, no test is run; yet, when the call returns,
    what is printed ends with a table headed by Levene's test, whose row is
    NaN in both fields, whatever [alpha]. *)
Theorem X13_test_table_without_test L h data missing labels0 alpha a res :
  asarray data = inr a →
  let t := normalize a missing in
  let r := statdesc L h data missing labels0 alpha in
  outcome r = inr res →
  1 < count_columns t (λ i, clean_len t i ≠ 0) →
  ¬ 1 < count_columns t (λ i, 2 < clean_len t i) →
  tests_run r = [] ∧
  ∃ before,
    stdout (heap_after r) =
      before ++ [Text "Levene's test for equality of variances";
                 Fmt "%26s %15s" ["t statistic"; "p value"] [];
                 rule;
                 Fmt "%26f %15f" [] [Np.NaN; Np.NaN];
                 rule].
Proof.
  intros Ha t r Hres Hne Hbig. subst t r.
  assert (¬ test_guard (normalize a missing)) as Hg by (by intros [_ ?]).
  split; [by apply (tests_run_none _ _ _ _ _ _ _ Ha)|].
  destruct (stdout_ends_with_test_table L h data missing labels0 alpha a Ha
              res Hres Hne) as (before & r & Hr & Hout).
  rewrite core_eq_var, decide_False in Hr by done. injection Hr as <-.
  exists before. rewrite Hout. unfold test_heading.
  destruct (all_normal _ _) eqn:Hn; [exfalso|done].
  pose proof (proj1 (core_normality_all _ _ _ _ _) Hn) as Hall.
  destruct (decide (Forall (λ i, 2 < clean_len (normalize a missing) i)
                      (seq 0 (shape1 (normalize a missing))))) as [Hf|Hf].
  - apply Hbig. unfold count_columns in *.
    rewrite (filter_all _ _ Hf), length_seq.
    pose proof (length_filter (λ i, clean_len (normalize a missing) i ≠ 0)
                  (seq 0 (shape1 (normalize a missing)))) as Hle.
    rewrite length_seq in Hle. lia.
  - apply not_Forall_Exists in Hf; [|apply _].
    apply Exists_exists in Hf as (j & [_ Hj]%elem_of_seq & Hshort).
    specialize (Hall j ltac:(lia)). simpl in Hshort.
    rewrite short_column_p_value in Hall by lia.
    by rewrite nan_never_greater in Hall.
Qed.

Lemma X13_witness :
  let r := statdesc_default (lib_with 0.98 0.6) fresh two_short_columns in
  tests_run r = [] ∧
  ∃ before,
    stdout (heap_after r) =
      before ++ [Text "Levene's test for equality of variances";
                 Fmt "%26s %15s" ["t statistic"; "p value"] [];
                 rule;
                 Fmt "%26f %15f" [] [Np.NaN; Np.NaN];
                 rule].
Proof.
  assert (∃ res, outcome (statdesc_default (lib_with 0.98 0.6) fresh
                            two_short_columns) = inr res) as [res Hres].
  { eexists. vm_compute. reflexivity. }
  apply (X13_test_table_without_test (lib_with 0.98 0.6) fresh
           two_short_columns (MissingStr "NaN") None 0.05%float
           (Rank2 2 [[1; 4]; [2; 6]]%float) res).
  - reflexivity.
  - exact Hres.
  - vm_compute; lia.
  - vm_compute; lia.
Defined.

(** ** The caller's array, once more *)








(** ** The size of the report *)

Lemma table_lines_length {A} (f : string → A → line) labels0 (arr : list A) n :
  n ≤ length labels0 → n ≤ length arr →
  length (table_lines f labels0 arr n) = n.
Proof.
  intros Hl Ha. unfold table_lines.
  rewrite length_zip_with, !length_take. lia.
Qed.

(** X16. A report that [statprint] completes has five rows per column and 21
    other lines, and 5 more lines when [nx > 1]. *)
Theorem X16_report_size m_sd0 ci0 min_max0 quartiles0 normality0 eq_var0
    labels0 alpha nrow ncol nmiss0 nx out :
  printable m_sd0 ci0 min_max0 quartiles0 normality0 eq_var0 labels0 ncol nx →
  length (statprint m_sd0 ci0 min_max0 quartiles0 normality0 eq_var0 labels0
            alpha nrow ncol nmiss0 nx out).1
  = length out + 21 + 5 * ncol + (if 1 <? nx then 5 else 0).
Proof.
  intros Hp. rewrite (statprint_emits _ _ _ _ _ _ _ _ _ _ _ _ Hp). simpl fst.
  destruct Hp as (Hl & H1 & H2 & H3 & H4 & H5 & Heq).
  unfold report_lines, test_lines. rewrite !length_app.
  rewrite !table_lines_length by done.
  destruct (Nat.ltb_spec 1 nx) as [Hnx|Hnx].
  - destruct (lookup_lt_is_Some_2 eq_var0 0 (Heq Hnx)) as [r ->].
    rewrite !length_app. simpl. lia.
  - simpl. lia.
Qed.

Lemma X16_witness :
  length (statprint [(1, 2)] [(3, 4)] [(5, 6)] [(7, 8, 9)] [(1, 1)] [(0, 0)]
            ["a"] 0.05 1 1 0 1 [])%float.1 = 26.
Proof.
  apply (X16_report_size [(1, 2)] [(3, 4)] [(5, 6)] [(7, 8, 9)] [(1, 1)]
           [(0, 0)] ["a"] 0.05 1 1 0 1 [])%float.
  unfold printable. simpl. lia.
Defined.
